(** * The decision core of the tool-calling agent (app/agent/llm_agent.py)

    A shallow embedding of the helpers that turn raw model text into a
    decision (extraction, normalization, argument canonicalization) and of
    the bounded orchestration loop of [agent_run], followed by the
    properties the specification states about them.

    Conventions.
    - A Python [str] is a [string]; the model covers ASCII text.
    - A Python exception is [None] (for the helpers) or the outcome
      [Raised] (for the run).
    - A [dict] is an association list in insertion order.
    - The builtins [int] and [float] and the pattern [_NUM_RE] are modelled
      on text; the value of a float, its printing and [json.loads] are
      parameters ([Runtime]).
    - The two gateways are arbitrary: each is the sequence of replies it
      gives to the successive calls of a run. *)

From Stdlib Require Import Bool Arith ZArith Lia List Ascii String.
Import ListNotations.
Local Open Scope string_scope.
Local Open Scope nat_scope.

(** ** Python string primitives *)

Module PyStr.

(** [str.isspace] on one ASCII character: tab, line feed, vertical tab, form
    feed, carriage return, the four separators 0x1c..0x1f, and space. *)
Definition is_space (c : ascii) : bool :=
  let n := nat_of_ascii c in
  ((9 <=? n) && (n <=? 13)) || ((28 <=? n) && (n <=? 32)).

Definition is_digit (c : ascii) : bool :=
  let n := nat_of_ascii c in (48 <=? n) && (n <=? 57).

(** [str.lower] on one ASCII character. *)
Definition lower_char (c : ascii) : ascii :=
  let n := nat_of_ascii c in
  if (65 <=? n) && (n <=? 90) then ascii_of_nat (n + 32) else c.

Fixpoint lower (s : string) : string :=
  match s with
  | "" => ""
  | String c s' => String (lower_char c) (lower s')
  end.

Fixpoint lstrip (s : string) : string :=
  match s with
  | String c s' => if is_space c then lstrip s' else s
  | "" => ""
  end.

Fixpoint rstrip (s : string) : string :=
  match s with
  | "" => ""
  | String c s' =>
      match rstrip s' with
      | "" => if is_space c then "" else String c ""
      | r => String c r
      end
  end.

(** [s.strip()] *)
Definition strip (s : string) : string := rstrip (lstrip s).

(** [s[n:]] for [0 <= n] *)
Fixpoint drop (n : nat) (s : string) : string :=
  match n, s with
  | O, _ => s
  | S n', String _ s' => drop n' s'
  | S _, "" => ""
  end.

(** [s[a:b]] for [0 <= a], [0 <= b] *)
Definition slice (s : string) (a b : nat) : string := substring a (b - a) s.

(** [s.find(c)] for a one-character needle; [-1] when absent. *)
Fixpoint find_char (c : ascii) (s : string) : Z :=
  match s with
  | "" => (-1)%Z
  | String x s' =>
      if Ascii.eqb x c then 0%Z
      else match find_char c s' with
           | Zneg _ => (-1)%Z
           | k => Z.succ k
           end
  end.

(** [needle in s] *)
Fixpoint contains (needle s : string) : bool :=
  prefix needle s ||
  match s with
  | "" => false
  | String _ s' => contains needle s'
  end.

(** [c in s] for one character *)
Fixpoint mem_char (c : ascii) (s : string) : bool :=
  match s with
  | "" => false
  | String x s' => Ascii.eqb x c || mem_char c s'
  end.

(** Number of occurrences of a character. *)
Fixpoint count (c : ascii) (s : string) : nat :=
  match s with
  | "" => 0
  | String x s' => (if Ascii.eqb x c then 1 else 0) + count c s'
  end.

End PyStr.

(** ** Decision Extractor *)

Module Extractor.
Import PyStr.

Definition lbrace : ascii := "{"%char.
Definition rbrace : ascii := "}"%char.
Definition newline : ascii := "010"%char.

(** Case-insensitive test that [s] starts with the lower-case word [w]. *)
Definition ci_prefix (w s : string) : bool :=
  prefix w (lower (substring 0 (length w) s)).

(** Length of the match of
    [FENCE_RE = ^```(?:json)?|```$] (flags IGNORECASE, MULTILINE) at the
    current position, if any.  [bol] tells whether the position is the start
    of a line.  The first alternative is tried first; its optional group is
    greedy. *)
Definition fence_match (bol : bool) (s : string) : option nat :=
  if prefix "```" s then
    let rest := drop 3 s in
    if bol then Some (if ci_prefix "json" rest then 7 else 3)
    else match rest with
         | "" => Some 3
         | String c _ => if Ascii.eqb c newline then Some 3 else None
         end
  else None.

(** [FENCE_RE.sub("", s)], scanning left to right.  [skip] counts the
    characters of the current match still to be deleted. *)
Fixpoint fence_sub (skip : nat) (bol : bool) (s : string) : string :=
  match s with
  | "" => ""
  | String c s' =>
      let bol' := Ascii.eqb c newline in
      match skip with
      | S k => fence_sub k bol' s'
      | O =>
          match fence_match bol s with
          | Some n => fence_sub (n - 1) bol' s'
          | None => String c (fence_sub 0 bol' s')
          end
      end
  end.

Definition _strip_fences_and_prose (s : string) : string :=
  let s := strip s in
  let s := strip (fence_sub 0 true s) in
  let first := find_char lbrace s in
  if (0 <? first)%Z then drop (Z.to_nat first) s else s.

(** The [for i, ch in enumerate(text)] loop of [_extract_first_json_object]:
    [rest] is the text from index [i] on.  It yields the pair [(start, i)] at
    the [return], and [None] when the loop falls through to the [raise]. *)
Fixpoint scan_braces (rest : string) (i depth : nat) (start : Z)
  : option (Z * nat) :=
  match rest with
  | "" => None
  | String ch rest' =>
      if Ascii.eqb ch lbrace then
        scan_braces rest' (S i) (S depth)
                    (if depth =? 0 then Z.of_nat i else start)
      else if Ascii.eqb ch rbrace then
        if 0 <? depth then
          let depth' := depth - 1 in
          if (depth' =? 0) && negb (start =? -1)%Z
          then Some (start, i)
          else scan_braces rest' (S i) depth' start
        else scan_braces rest' (S i) depth start
      else scan_braces rest' (S i) depth start
  end.

(** [None] stands for [ValueError("No complete JSON object found")]. *)
Definition _extract_first_json_object (text : string) : option string :=
  let text := _strip_fences_and_prose text in
  match scan_braces text 0 0 (-1) with
  | Some (start, i) => Some (slice text (Z.to_nat start) (i + 1))
  | None => None
  end.

(** A top-level balanced block: it opens a brace, it closes as many braces
    as it opens, and before its last character more are open than closed. *)
Definition balanced_block (r : string) : Prop :=
  0 < count lbrace r /\
  count lbrace r = count rbrace r /\
  forall p q, r = p ++ q -> p <> "" -> q <> "" ->
              count rbrace p < count lbrace p.

(** With [S d] braces open, the depth stays positive all along [p]. *)
Definition stays_open (d : nat) (p : string) : Prop :=
  forall p1 p2, p = p1 ++ p2 -> count rbrace p1 <= count lbrace p1 + d.

(** [r] is the first top-level balanced block of [t]: it starts at the first
    opening brace of [t]. *)
Definition first_block (t r : string) : Prop :=
  exists pre post,
    t = pre ++ r ++ post /\ count lbrace pre = 0 /\ balanced_block r.

End Extractor.

(** ** JSON values, dictionaries and the interpreter's builtins *)

(** The values [json.loads] produces.  Python's [None] is [VNull]; [F] is the
    interpreter's type of floats. *)
#[local] Set Warnings "-register-all".
Inductive value (F : Type) : Type :=
| VNull
| VBool (b : bool)
| VInt (n : Z)
| VFloat (x : F)
| VStr (s : string)
| VList (items : list (value F))
| VDict (items : list (string * value F)).

#[local] Set Warnings "register-all".

Arguments VNull {F}.
Arguments VBool {F} b.
Arguments VInt {F} n.
Arguments VFloat {F} x.
Arguments VStr {F} s.
Arguments VList {F} items.
Arguments VDict {F} items.

(** What the embedding leaves to the interpreter and its library: the
    double a float text denotes, how a double prints, the limit on the
    digits of an integer text ([0]: none; otherwise at least 640), and
    [json.loads] ([None] when it raises).  Every property below holds for
    all of them. *)
Class Runtime : Type := {
  pyfloat : Type;
  float_value : string -> pyfloat;
  float_str : pyfloat -> string;
  int_max_str_digits : nat;
  json_loads : string -> option (value pyfloat)
}.

Module PyDict.
Section Dict.
Context {V : Type}.

Definition dict : Type := list (string * V).

(** [d.get(k)] *)
Fixpoint dict_get (k : string) (d : dict) : option V :=
  match d with
  | [] => None
  | (k', v) :: d' => if String.eqb k' k then Some v else dict_get k d'
  end.

(** [k in d] *)
Definition dict_mem (k : string) (d : dict) : bool :=
  match dict_get k d with Some _ => true | None => false end.

(** [d[k] = v]: an existing key keeps its place, a new one goes last. *)
Fixpoint dict_set (k : string) (v : V) (d : dict) : dict :=
  match d with
  | [] => [(k, v)]
  | (k', v') :: d' =>
      if String.eqb k' k then (k, v) :: d' else (k', v') :: dict_set k v d'
  end.

(** [d.update(e)] *)
Definition dict_update (d e : dict) : dict :=
  fold_left (fun acc kv => dict_set (fst kv) (snd kv) acc) e d.

Definition keys (d : dict) : list string := map fst d.

End Dict.
End PyDict.

(** ** The builtins [int] and [float] on text *)

Module PyNum.
Import PyStr.

(** Whitespace as the number parsers skip it. *)
Definition is_c_space (c : ascii) : bool :=
  let n := nat_of_ascii c in ((9 <=? n) && (n <=? 13)) || (n =? 32).

Definition is_sign (c : ascii) : bool :=
  Ascii.eqb c "+"%char || Ascii.eqb c "-"%char.

Definition is_underscore (c : ascii) : bool := Ascii.eqb c "_"%char.

Definition digit_value (c : ascii) : Z := Z.of_nat (nat_of_ascii c - 48).

Fixpoint lskip (s : string) : string :=
  match s with
  | String c s' => if is_c_space c then lskip s' else s
  | "" => ""
  end.

Fixpoint rskip (s : string) : string :=
  match s with
  | "" => ""
  | String c s' =>
      match rskip s' with
      | "" => if is_c_space c then "" else String c ""
      | r => String c r
      end
  end.

Fixpoint all_chars (p : ascii -> bool) (s : string) : bool :=
  match s with
  | "" => true
  | String c s' => p c && all_chars p s'
  end.

(** The digit loop of [int]: digits, single underscores between them.
    [prev_us] tells whether the previous character was an underscore;
    it yields the value, the number of digits and the unread rest. *)
Fixpoint int_digits (s : string) (prev_us : bool) (acc : Z) (n : nat)
  : option (Z * nat * string) :=
  match s with
  | "" => if prev_us then None else Some (acc, n, "")
  | String c s' =>
      if is_digit c then int_digits s' false (acc * 10 + digit_value c)%Z (S n)
      else if is_underscore c then
        if prev_us then None else int_digits s' true acc n
      else if prev_us then None else Some (acc, n, s)
  end.

Section WithRuntime.
Context {rt : Runtime}.

(** What [int] reads after the sign: digits, then whitespace only.  It
    refuses a leading underscore, the absence of digits, and more digits
    than the limit allows. *)
Definition int_body (s : string) : option Z :=
  match s with
  | String c _ =>
      if is_underscore c then None
      else
        match int_digits s false 0%Z 0 with
        | Some (v, n, rest) =>
            if (n =? 0) then None
            else if negb (all_chars is_c_space rest) then None
            else if (0 <? int_max_str_digits) && (int_max_str_digits <? n)
            then None
            else Some v
        | None => None
        end
  | "" => None
  end.

(** [int(s)] in base ten; [None] is [ValueError]. *)
Definition py_int (s : string) : option Z :=
  match lskip s with
  | String c s' =>
      if Ascii.eqb c "-"%char then option_map Z.opp (int_body s')
      else if Ascii.eqb c "+"%char then int_body s'
      else int_body (String c s')
  | "" => None
  end.

End WithRuntime.

(** Underscores in a float text: each one directly after and directly
    before a digit.  [prev] is the previous character, if any. *)
Fixpoint underscores_ok (prev : option ascii) (s : string) : bool :=
  match s with
  | "" => match prev with
          | Some p => negb (is_underscore p)
          | None => true
          end
  | String c s' =>
      (if is_underscore c
       then match prev with Some p => is_digit p | None => false end
       else match prev with
            | Some p => negb (is_underscore p) || is_digit c
            | None => true
            end)
      && underscores_ok (Some c) s'
  end.

Fixpoint remove_underscores (s : string) : string :=
  match s with
  | "" => ""
  | String c s' =>
      if is_underscore c then remove_underscores s'
      else String c (remove_underscores s')
  end.

(** The longest run of digits at the front: its length and what follows. *)
Fixpoint span_digits (s : string) : nat * string :=
  match s with
  | String c s' =>
      if is_digit c then let '(n, r) := span_digits s' in (S n, r) else (0, s)
  | "" => (0, "")
  end.

Definition skip_sign (s : string) : string :=
  match s with
  | String c s' => if is_sign c then s' else s
  | "" => s
  end.

(** The first character of [s], if any, does not satisfy [p]. *)
Definition head_not (p : ascii -> bool) (s : string) : Prop :=
  match s with
  | "" => True
  | String c _ => p c = false
  end.

(** A text whose last character is a digit. *)
Definition ends_with_digit (w : string) : Prop :=
  exists s c, w = s ++ String c "" /\ is_digit c = true.

(** The exponent of a decimal text: the marker, an optional sign, at least
    one digit.  Yields what follows it. *)
Definition exponent (s : string) : option string :=
  match s with
  | String c s' =>
      if Ascii.eqb c "e"%char || Ascii.eqb c "E"%char then
        let '(n, r) := span_digits (skip_sign s') in
        if n =? 0 then None else Some r
      else None
  | "" => None
  end.

(** A decimal text, read to the end: digits with an optional point (at
    least one digit on one side of it), then an optional exponent. *)
Definition decimal_text (s : string) : bool :=
  let '(n1, r1) := span_digits s in
  let '(n2, r2) :=
    match r1 with
    | String c r => if Ascii.eqb c "."%char then span_digits r else (0, r1)
    | "" => (0, r1)
    end in
  if n1 + n2 =? 0 then false
  else match r2 with
       | "" => true
       | _ => match exponent r2 with
              | Some "" => true
              | _ => false
              end
       end.

Definition special_text (s : string) : bool :=
  let l := lower s in
  String.eqb l "inf" || String.eqb l "infinity" || String.eqb l "nan".

(** After the underscores are gone: surrounding whitespace, a sign, then a
    decimal text or one of [inf], [infinity], [nan] in any case. *)
Definition float_inner (s : string) : bool :=
  let s := skip_sign (rskip (lskip s)) in
  decimal_text s || special_text s.

(** The texts [float] accepts. *)
Definition float_text (s : string) : bool :=
  if mem_char "_"%char s
  then underscores_ok None s && float_inner (remove_underscores s)
  else float_inner s.

Section WithRuntime.
Context {rt : Runtime}.

(** [float(s)]; [None] is [ValueError]. *)
Definition py_float (s : string) : option pyfloat :=
  if float_text s then Some (float_value s) else None.

End WithRuntime.
End PyNum.

(** ** The numeric-literal pattern *)

Module NumRe.
Import PyStr PyNum.

(** The fragment of regular expressions [_NUM_RE] is written in: a
    character class, sequence, greedy option, and greedy repetition of a
    class. *)
Inductive re : Type :=
| Cls (p : ascii -> bool)
| Seq (a b : re)
| Opt (a : re)
| Star (p : ascii -> bool)
| Plus (p : ascii -> bool).

(** Greedy repetition with backtracking: the longest run first, then
    shorter ones, until the continuation [k] succeeds. *)
Fixpoint star (p : ascii -> bool) (s : string) (k : string -> option string)
  : option string :=
  match s with
  | String c s' =>
      if p c then
        match star p s' k with
        | Some r => Some r
        | None => k s
        end
      else k s
  | "" => k s
  end.

(** Backtracking match of [r] at the front of [s]; [k] matches what
    follows and yields the unread rest. *)
Fixpoint matches (r : re) (s : string) (k : string -> option string)
  : option string :=
  match r with
  | Cls p =>
      match s with
      | String c s' => if p c then k s' else None
      | "" => None
      end
  | Seq a b => matches a s (fun s1 => matches b s1 k)
  | Opt a =>
      match matches a s k with
      | Some r => Some r
      | None => k s
      end
  | Star p => star p s k
  | Plus p =>
      match s with
      | String c s' => if p c then star p s' k else None
      | "" => None
      end
  end.

Definition is_dot (c : ascii) : bool := Ascii.eqb c "."%char.
Definition is_exp (c : ascii) : bool :=
  Ascii.eqb c "e"%char || Ascii.eqb c "E"%char.

(** [_NUM_RE = [-+]?\d*\.?\d+(?:[eE][-+]?\d+)?] *)
Definition _NUM_RE : re :=
  Seq (Opt (Cls is_sign))
   (Seq (Star is_digit)
    (Seq (Opt (Cls is_dot))
     (Seq (Plus is_digit)
      (Opt (Seq (Cls is_exp) (Seq (Opt (Cls is_sign)) (Plus is_digit))))))).

(** The exponent of a literal: marker, optional sign, digits. *)
Definition exponent_part : re :=
  Seq (Cls is_exp) (Seq (Opt (Cls is_sign)) (Plus is_digit)).

(** The texts a pattern denotes. *)
Fixpoint lang (r : re) (w : string) : Prop :=
  match r with
  | Cls p => exists c, w = String c "" /\ p c = true
  | Seq a b => exists u v, w = u ++ v /\ lang a u /\ lang b v
  | Opt a => w = "" \/ lang a w
  | Star p => all_chars p w = true
  | Plus p => w <> "" /\ all_chars p w = true
  end.

(** [r.match(s)]: the matched text at the front of [s]. *)
Definition match_at (r : re) (s : string) : option string :=
  match matches r s (fun rest => Some rest) with
  | Some rest => Some (substring 0 (length s - length rest) s)
  | None => None
  end.

(** [r.findall(s)] for a pattern without groups: leftmost matches, each
    search resuming where the previous match ended.  [skip] counts the
    characters of the current match still to be passed. *)
Fixpoint findall_from (r : re) (skip : nat) (s : string) : list string :=
  match skip with
  | S k =>
      match s with
      | String _ s' => findall_from r k s'
      | "" => []
      end
  | O =>
      match match_at r s with
      | Some m =>
          m :: match s with
               | String _ s' => findall_from r (length m - 1) s'
               | "" => []
               end
      | None =>
          match s with
          | String _ s' => findall_from r 0 s'
          | "" => []
          end
      end
  end.

Definition findall (r : re) (s : string) : list string := findall_from r 0 s.

End NumRe.

(** ** Decision Normalizer *)

Module Normalizer.
Import PyStr PyDict PyNum Extractor.

Section WithRuntime.
Context {rt : Runtime}.

Abbreviation val := (value pyfloat).
Abbreviation pydict := (@dict val).

(** A normalized decision: the dictionary [{"final": text}] or
    [{"tool": tool, "args": args}]. *)
Inductive decision : Type :=
| Final (text : string)
| ToolCall (tool : string) (args : pydict).

(** [None] when the extraction or [json.loads] raises. *)
Definition parse_llm_json (s : string) : option val :=
  match _extract_first_json_object s with
  | Some obj => json_loads obj
  | None => None
  end.

(** [any(c in v for c in ".eE")] *)
Definition has_marker (v : string) : bool :=
  mem_char "."%char v || mem_char "e"%char v || mem_char "E"%char v.

(** The body of the [try] in [_coerce_numbers]: the number assigned, or
    [None] when the conversion raises. *)
Definition convert (v : string) : option val :=
  if has_marker v
  then option_map VFloat (py_float v)
  else option_map VInt (py_int v).

(** What the loop leaves under a key that held [v]. *)
Definition coerced (v : val) : val :=
  match v with
  | VStr s => match convert s with
              | Some n => n
              | None => v
              end
  | _ => v
  end.

Definition coerce_entry (kv : string * val) : string * val :=
  (fst kv, coerced (snd kv)).

(** "Looks purely numeric", in the specification's words: only digits,
    signs, decimal points and exponent markers. *)
Definition spec_looks_numeric (s : string) : bool :=
  all_chars
    (fun c => is_digit c || is_sign c || Ascii.eqb c "."%char
              || Ascii.eqb c "e"%char || Ascii.eqb c "E"%char)
    s.

(** The [for k, v in list(d["args"].items())] loop: it walks a snapshot of
    the items and assigns into the dictionary itself. *)
Definition coerce_items (snapshot args : pydict) : pydict :=
  fold_left
    (fun acc kv =>
       match snd kv with
       | VStr v => match convert v with
                   | Some n => dict_set (fst kv) n acc
                   | None => acc
                   end
       | _ => acc
       end)
    snapshot args.

Definition _coerce_numbers (d : decision) : decision :=
  match d with
  | ToolCall tool args => ToolCall tool (coerce_items args args)
  | Final _ => d
  end.

(** [merged.update(item)] for each dictionary of the list. *)
Definition merge_items (items : list val) : pydict :=
  fold_left
    (fun merged item =>
       match item with
       | VDict e => dict_update merged e
       | _ => merged
       end)
    items [].

(** [None] stands for the [ValueError]s. *)
Definition _normalize_decision (x : val) : option decision :=
  match x with
  | VDict x =>
      if dict_mem "final" x then
        match dict_get "final" x with
        | Some (VStr text) =>
            if negb (List.length x =? 1) then None else Some (Final text)
        | _ => None
        end
      else if dict_mem "tool" x then
        let args := match dict_get "args" x with
                    | Some a => a
                    | None => VDict []
                    end in
        let args := match args with
                    | VList items => VDict (merge_items items)
                    | _ => args
                    end in
        match dict_get "tool" x, args with
        | Some (VStr tool), VDict args =>
            Some (_coerce_numbers (ToolCall tool args))
        | _, _ => None
        end
      else None
  | _ => None
  end.

End WithRuntime.
End Normalizer.

(** ** Argument Canonicalizer *)

Module Canonicalizer.
Import PyStr PyDict PyNum NumRe.

Section WithRuntime.
Context {rt : Runtime}.

Abbreviation val := (value pyfloat).
Abbreviation pydict := (@dict val).

Definition is_none (v : val) : bool :=
  match v with VNull => true | _ => false end.

(** [(float(nums[0]), float(nums[1]))], or [(None, None)]. *)
Definition _extract_two_numbers (text : string) : val * val :=
  match findall _NUM_RE text with
  | n0 :: n1 :: _ =>
      match py_float n0, py_float n1 with
      | Some x, Some y => (VFloat x, VFloat y)
      | _, _ => (VNull, VNull)
      end
  | _ => (VNull, VNull)
  end.

Definition a_keys : list string :=
  ["a"; "x"; "left"; "lhs"; "num1"; "number1"; "first"; "value1"].
Definition b_keys : list string :=
  ["b"; "y"; "right"; "rhs"; "num2"; "number2"; "second"; "value2"].

(** [{str(k).lower(): v for k, v in args.items()}] *)
Definition lower_keys (args : pydict) : pydict :=
  fold_left (fun acc kv => dict_set (lower (fst kv)) (snd kv) acc) args [].

(** The local function [pick]: the value under the first listed key that
    is present, else [None]. *)
Fixpoint pick (keys : list string) (lower : pydict) : val :=
  match keys with
  | [] => VNull
  | k :: keys' =>
      match dict_get k lower with
      | Some v => v
      | None => pick keys' lower
      end
  end.

Definition _canonicalize_args (tool : string) (args : val)
           (user_input : string) : pydict :=
  let args := match args with VDict d => d | _ => [] end in
  let lower := lower_keys args in
  if String.eqb tool "add_numbers" then
    let a_val := pick a_keys lower in
    let b_val := pick b_keys lower in
    let '(a_val, b_val) :=
      if is_none a_val || is_none b_val then
        let '(a_guess, b_guess) := _extract_two_numbers user_input in
        (if is_none a_val then a_guess else a_val,
         if is_none b_val then b_guess else b_val)
      else (a_val, b_val) in
    let out := [] in
    let out := if negb (is_none a_val) then dict_set "a" a_val out else out in
    let out := if negb (is_none b_val) then dict_set "b" b_val out else out in
    out
  else if String.eqb tool "say_hello" then []
  else args.

End WithRuntime.
End Canonicalizer.

(** ** Orchestration Loop *)

Module Agent.
Import PyStr PyDict PyNum Normalizer Canonicalizer.

(** One call of a gateway: it raises, or it answers with a text (the
    [content] of the model's message, the observation of a tool). *)
Inductive reply : Type :=
| Raises
| Says (content : string).

(** The five places where [agent_run] calls the Model Gateway. *)
Inductive request : Type :=
| Initial       (* first decision *)
| ShapeRepair   (* second attempt at the first decision *)
| ToolRepair    (* [_repair_to_known_tool] *)
| ArgFix        (* extraction of the two numbers *)
| NextTurn.     (* next decision after an observation *)

(** What a run ends with: the string returned, a propagated exception, or
    [Unfinished] when the fuel given to the loop did not suffice. *)
Inductive outcome : Type :=
| Returned (answer : string)
| Raised
| Unfinished.

Definition max_steps : nat := 5.

(** A gateway whose successive calls get the replies of [l]; it raises
    once they are used up. *)
Definition script (l : list reply) : nat -> reply := fun n => nth n l Raises.

Section WithRuntime.
Context {rt : Runtime}.

Abbreviation val := (value pyfloat).
Abbreviation pydict := (@dict val).

(** The observable actions of a run, oldest first: a request to the Model
    Gateway, a tool invocation, the replacement of a [final] by the forced
    greeting call, the scheduling of the greeting call after a tool, the
    start of a loop iteration.  The texts of the prompts are not part of
    the model: the replies of the Model Gateway are arbitrary. *)
Inductive event : Type :=
| Asked (r : request)
| Invoked (name : string) (args : pydict)
| Overrode
| Scheduled
| Round.

(** The run's position in the world: how many calls each gateway has
    received, and the log of the run. *)
Record io : Type := {
  asked : nat;
  invoked : nat;
  log : list event
}.

(** The local variables of [agent_run] that live across iterations. *)
Record locals : Type := {
  steps : nat;
  decision_obj : decision;
  sum_value : option pyfloat;
  greet_msg : option string
}.

Definition note (e : event) (w : io) : io :=
  {| asked := asked w; invoked := invoked w; log := log w ++ [e] |}.

(** [_normalize_decision(parse_llm_json(content.strip()))] *)
Definition decide (content : string) : option decision :=
  match parse_llm_json (strip content) with
  | Some x => _normalize_decision x
  | None => None
  end.

Definition say_hello_call : decision := ToolCall "say_hello" [].

(** Truth value of [greet_msg]. *)
Definition truthy (g : option string) : bool :=
  match g with
  | Some (String _ _) => true
  | _ => false
  end.

Definition is_unset {A : Type} (o : option A) : bool :=
  match o with None => true | Some _ => false end.

Definition sum_only (x : pyfloat) : string := "The sum is " ++ float_str x.

Definition sum_and_greeting (x : pyfloat) (g : string) : string :=
  "The sum is " ++ float_str x ++ ". " ++ g.

Definition apology : string := "I couldn't complete the requested steps.".

(** The answer composed when a [final] is honoured inside the loop. *)
Definition compose_in_loop (l : locals) (text : string) : string :=
  match sum_value l with
  | Some x =>
      match greet_msg l with
      | Some (String c g) => sum_and_greeting x (String c g)
      | _ => sum_only x
      end
  | None => text
  end.

(** The answer composed after the loop. *)
Definition compose_final (l : locals) : string :=
  match sum_value l with
  | Some x =>
      match greet_msg l with
      | Some (String c g) => sum_and_greeting x (String c g)
      | _ => sum_only x
      end
  | None =>
      match greet_msg l with
      | Some (String c g) => String c g
      | _ => apology
      end
  end.

(** [decision_obj.get("tool") not in allowed_tool_names] *)
Definition unknown_tool (allowed : list string) (d : decision) : bool :=
  match d with
  | ToolCall tool _ => negb (existsb (String.eqb tool) allowed)
  | Final _ => true
  end.

(** [tool_name == "add_numbers" and ("a" not in tool_args or "b" not in tool_args)] *)
Definition incomplete (tool_name : string) (tool_args : pydict) : bool :=
  String.eqb tool_name "add_numbers"
  && (negb (dict_mem "a" tool_args) || negb (dict_mem "b" tool_args)).

(** "Capture results deterministically". *)
Definition capture (tool_name observation : string) (l : locals) : locals :=
  if String.eqb tool_name "add_numbers" then
    match py_float observation with
    | Some x =>
        {| steps := steps l; decision_obj := decision_obj l;
           sum_value := Some x; greet_msg := greet_msg l |}
    | None =>
        match py_float observation with
        | Some x =>
            {| steps := steps l; decision_obj := decision_obj l;
               sum_value := Some x; greet_msg := greet_msg l |}
        | None => l
        end
    end
  else if String.eqb tool_name "say_hello" then
    {| steps := steps l; decision_obj := decision_obj l;
       sum_value := sum_value l; greet_msg := Some observation |}
  else l.

(** [decision_obj = d; steps += 1] *)
Definition next_round (d : decision) (l : locals) : locals :=
  {| steps := steps l + 1; decision_obj := d;
     sum_value := sum_value l; greet_msg := greet_msg l |}.

(** ["say hello" in user_input.lower() or "say_hello" in user_input.lower()] *)
Definition must_greet_of (user_input : string) : bool :=
  contains "say hello" (lower user_input)
  || contains "say_hello" (lower user_input).

(** What the loop does with a decision that may be a [final]: return an
    answer, or carry on with a tool call. *)
Inductive verdict : Type :=
| Answer (s : string)
| Carry (d : decision) (w : io).

(** How one iteration of the [while] ends. *)
Inductive flow : Type :=
| Next (l : locals) (w : io)          (* iterate again *)
| Done (answer : string) (w : io)     (* [return] *)
| Stop (l : locals) (w : io)          (* [break] *)
| Throw (w : io).                     (* an exception leaves the loop *)

Section Run.

(** The two gateways, as the reply each gives to its n-th call of the
    run; the user's text; the names [session.list_tools()] gave. *)
Variables (chat tool : nat -> reply).
Variable user_input : string.
Variable allowed_tool_names : list string.

Definition must_greet : bool := must_greet_of user_input.

(** [ollama.chat(...)["message"]["content"]] *)
Definition ask (rq : request) (w : io) : reply * io :=
  (chat (asked w),
   {| asked := S (asked w); invoked := invoked w;
      log := log w ++ [Asked rq] |}).

(** [await call_tool(session, name, args)] *)
Definition call_tool (name : string) (args : pydict) (w : io) : reply * io :=
  (tool (invoked w),
   {| asked := asked w; invoked := S (invoked w);
      log := log w ++ [Invoked name args] |}).

(** The treatment of a [final], written twice in the loop: before the
    validation of the tool name and after its repair. *)
Definition on_final (l : locals) (d : decision) (w : io) : verdict :=
  match d with
  | Final text =>
      if must_greet && is_unset (greet_msg l)
      then Carry say_hello_call (note Overrode w)
      else Answer (compose_in_loop l text)
  | ToolCall _ _ => Carry d w
  end.

(** [_repair_to_known_tool]: [None] when it raises. *)
Definition _repair_to_known_tool (w : io) : option decision * io :=
  let '(r, w) := ask ToolRepair w in
  match r with
  | Raises => (None, w)
  | Says content => (decide content, w)
  end.

(** The one-shot repair of the arguments; [None] when the gateway call,
    which no handler guards, raises. *)
Definition fix_args (tool_name : string) (tool_args : pydict) (w : io)
  : option pydict * io :=
  if incomplete tool_name tool_args then
    let '(r, w) := ask ArgFix w in
    match r with
    | Raises => (None, w)
    | Says content =>
        match decide content with
        | Some (ToolCall tool args) =>
            if String.eqb tool "add_numbers"
            then (Some (_canonicalize_args "add_numbers" (VDict args) user_input), w)
            else (Some tool_args, w)
        | _ => (Some tool_args, w)
        end
    end
  else (Some tool_args, w).

(** From "Execute tool" to the end of the loop body.  A decision without
    a tool name would raise [KeyError]. *)
Definition execute (l : locals) (d : decision) (w : io) : flow :=
  match d with
  | Final _ => Throw w
  | ToolCall tool_name tool_args =>
      let tool_args := _canonicalize_args tool_name (VDict tool_args) user_input in
      match fix_args tool_name tool_args w with
      | (None, w) => Throw w
      | (Some tool_args, w) =>
          if incomplete tool_name tool_args then Stop l w
          else
            match call_tool tool_name tool_args w with
            | (Raises, w) => Throw w
            | (Says observation, w) =>
                let l := capture tool_name observation l in
                if must_greet && is_unset (greet_msg l)
                then Next (next_round say_hello_call l) (note Scheduled w)
                else
                  match ask NextTurn w with
                  | (Raises, w) => Throw w
                  | (Says content, w) =>
                      match decide content with
                      | Some d' => Next (next_round d' l) w
                      | None => Stop l w
                      end
                  end
            end
      end
  end.

(** One iteration of the [while] loop. *)
Definition body (l : locals) (w : io) : flow :=
  match on_final l (decision_obj l) (note Round w) with
  | Answer s => Done s (note Round w)
  | Carry d w =>
      if unknown_tool allowed_tool_names d then
        match _repair_to_known_tool w with
        | (None, w) => Stop l w
        | (Some d, w) =>
            match on_final l d w with
            | Answer s => Done s w
            | Carry d w => execute l d w
            end
        end
      else execute l d w
  end.

(** [while steps < max_steps: ...] followed by the final composition.
    [fuel] bounds the iterations the model may unfold. *)
Fixpoint orchestrate (fuel : nat) (l : locals) (w : io) : outcome * io :=
  if steps l <? max_steps then
    match fuel with
    | O => (Unfinished, w)
    | S fuel' =>
        match body l w with
        | Next l' w' => orchestrate fuel' l' w'
        | Done answer w' => (Returned answer, w')
        | Stop l' w' => (Returned (compose_final l'), w')
        | Throw w' => (Raised, w')
        end
    end
  else (Returned (compose_final l), w).

(** The first decision: one request, and one more when the first reply
    raises or is not a decision.  [None]: the exception of the second
    attempt, which no handler guards. *)
Definition first_decision (w : io) : option decision * io :=
  let '(r, w) := ask Initial w in
  match match r with Says content => decide content | Raises => None end with
  | Some d => (Some d, w)
  | None =>
      let '(r2, w) := ask ShapeRepair w in
      match r2 with
      | Raises => (None, w)
      | Says content => (decide content, w)
      end
  end.

Definition start : io := {| asked := 0; invoked := 0; log := [] |}.

(** [agent_run] once the session has listed its tools. *)
Definition run : outcome * list event :=
  match first_decision start with
  | (None, w) => (Raised, log w)
  | (Some d, w) =>
      let l := {| steps := 0; decision_obj := d;
                  sum_value := None; greet_msg := None |} in
      let '(o, w) := orchestrate max_steps l w in
      (o, log w)
  end.

End Run.

(** [agent_run(user_input, cfg)].  [listed] holds the names of
    [session.list_tools()], or [None] when the session cannot be set up. *)
Definition agent_run (user_input : string) (listed : option (list string))
           (chat tool : nat -> reply) : outcome * list event :=
  match listed with
  | None => (Raised, [])
  | Some allowed_tool_names => run chat tool user_input allowed_tool_names
  end.

(** Kinds of events, to count them in a log. *)
Definition is_invocation (e : event) : bool :=
  match e with Invoked _ _ => true | _ => false end.

Definition is_round (e : event) : bool :=
  match e with Round => true | _ => false end.

Definition is_override (e : event) : bool :=
  match e with Overrode => true | _ => false end.

(** The two ways the loop forces the greeting call. *)
Definition is_forcing (e : event) : bool :=
  match e with Overrode | Scheduled => true | _ => false end.

Definition tally (p : event -> bool) (l : list event) : nat :=
  List.length (filter p l).

Definition is_asked (e : event) : bool :=
  match e with Asked _ => true | _ => false end.

(** The events of at most [n] iterations: per iteration one mark, at most
    one tool invocation and at most three requests to the model (repair of
    the tool name, repair of the arguments, next decision). *)
Definition within (n : nat) (extra : list event) : Prop :=
  tally is_round extra <= n /\
  tally is_invocation extra <= n /\
  tally is_asked extra <= 3 * n.

(** What an iteration adds to the log. *)
Definition one_round (before after : list event) : Prop :=
  exists extra, after = (before ++ extra)%list /\ within 1 extra.

(** Overrides so far: at most one, and none while no greeting is
    captured. *)
Definition override_once (l : locals) (w : io) : Prop :=
  tally is_override (log w) <= 1 /\
  (greet_msg l = None -> tally is_override (log w) = 0).

(** A greeting is captured, and the greeting call was forced [n] times. *)
Definition settled (n : nat) (l : locals) (w : io) : Prop :=
  greet_msg l <> None /\ tally is_forcing (log w) = n.

End WithRuntime.
End Agent.

(** ** Lines and fences *)

Module Lines.
Import PyStr Extractor.

Definition backtick : ascii := "`"%char.

Definition line_feed : string := String newline "".

(** Whether the position after the text [q] is the start of a line, when
    [bol] tells so for the position before it. *)
Fixpoint bol_after (bol : bool) (q : string) : bool :=
  match q with
  | "" => bol
  | String c q' => bol_after (Ascii.eqb c newline) q'
  end.

End Lines.

(** ** Tool catalog *)

Module Catalog.
Import PyStr Extractor Lines.

(** A tool as [session.list_tools()] describes it: [t.name] and
    [t.description], which may be [None]. *)
Record tool_info : Type := {
  name : string;
  description : option string
}.

(** [{"name": name, "description": desc, "signature": signature}] *)
Record summary : Type := {
  summary_name : string;
  summary_description : string;
  summary_signature : string
}.

Definition signature_of (name : string) : string :=
  if String.eqb name "add_numbers"
  then "add_numbers(a: float, b: float) -> float"
  else if String.eqb name "say_hello" then "say_hello() -> str"
  else name.

(** The body of the loop of [compact_tool_summaries]. *)
Definition summarize (t : tool_info) : summary :=
  {| summary_name := name t;
     summary_description :=
       strip (match description t with Some d => d | None => "" end);
     summary_signature := signature_of (name t) |}.

Definition compact_tool_summaries (tools : list tool_info) : list summary :=
  map summarize tools.

(** [sep.join(l)] *)
Fixpoint join (sep : string) (l : list string) : string :=
  match l with
  | [] => ""
  | [s] => s
  | s :: l' => s ++ sep ++ join sep l'
  end.

(** The em dash of the source, as the three bytes of its UTF-8 encoding. *)
Definition em_dash : string :=
  String (ascii_of_nat 226) (String (ascii_of_nat 128)
    (String (ascii_of_nat 148) "")).

(** The line of one tool: name, signature, em dash, description. *)
Definition render_line (t : summary) : string :=
  "- " ++ summary_name t ++ ": " ++ summary_signature t
       ++ " " ++ em_dash ++ " " ++ summary_description t.

Definition render_catalog_text (summaries : list summary) : string :=
  join line_feed
       ((line_feed ++ "Tools:" ++ line_feed) :: map render_line summaries).

(** [[t["name"] for t in summaries]] in [agent_run]. *)
Definition allowed_tool_names (summaries : list summary) : list string :=
  map summary_name summaries.

End Catalog.

(** ** The critique of a reply that is no decision *)

Module Critique.
Import PyStr PyDict Extractor Normalizer Catalog.
Section WithRuntime.
Context {rt : Runtime}.

Abbreviation val := (value pyfloat).

(** [x in obj] for a string [x]: a key of a dictionary, an element of a
    list, a part of a string; [None] is the [TypeError] of the other
    values. *)
Definition py_in (x : string) (obj : val) : option bool :=
  match obj with
  | VDict d => Some (dict_mem x d)
  | VList items =>
      Some (existsb (fun v => match v with
                              | VStr s => String.eqb s x
                              | _ => false
                              end) items)
  | VStr s => Some (contains x s)
  | _ => None
  end.

Definition is_list (v : val) : bool :=
  match v with VList _ => true | _ => false end.

(** [isinstance(obj.get("args"), list)]; [None] is the [AttributeError]
    of a value without [get]. *)
Definition args_is_list (obj : val) : option bool :=
  match obj with
  | VDict d => Some (match dict_get "args" d with
                     | Some a => is_list a
                     | None => false
                     end)
  | _ => None
  end.

Definition not_json : string :=
  "Your output was not a single JSON object. Error: ".
Definition no_object : string := "No complete JSON object found".
Definition note_array : string := "Top-level must be an object, not an array.".
Definition note_both : string := "Do not include both 'final' and 'tool'.".
Definition note_args : string := "'args' must be an object, not an array.".
Definition note_shape : string := "Output shape violated the rules.".

(** [_violations(decision_text)]; [None] when it raises.  [describe]
    gives the message of the exception [json.loads] raises on a text. *)
Definition _violations (describe : string -> string) (decision_text : string)
  : option string :=
  match _extract_first_json_object decision_text with
  | None => Some (not_json ++ no_object)
  | Some text =>
      match json_loads text with
      | None => Some (not_json ++ describe text)
      | Some obj =>
          let notes := [] in
          let notes := if is_list obj then (notes ++ [note_array])%list
                       else notes in
          match py_in "final" obj with
          | None => None
          | Some has_final =>
              match (if has_final then py_in "tool" obj else Some false) with
              | None => None
              | Some both =>
                  let notes := if both then (notes ++ [note_both])%list
                               else notes in
                  match py_in "tool" obj with
                  | None => None
                  | Some has_tool =>
                      match (if has_tool then args_is_list obj
                             else Some false) with
                      | None => None
                      | Some bad_args =>
                          let notes :=
                            if bad_args then (notes ++ [note_args])%list
                            else notes in
                          Some (match join " " notes with
                                | "" => note_shape
                                | s => s
                                end)
                      end
                  end
              end
          end
      end
  end.

(** [json.loads] reads a text that starts with an opening brace as an
    object, or raises. *)
Definition loads_objects : Prop :=
  forall t v, json_loads (String lbrace t) = Some v -> exists d, v = VDict d.

End WithRuntime.
End Critique.

(** ** What a log tells *)

Module Trace.
Import PyDict PyNum Normalizer Agent.
Local Open Scope list_scope.
Section WithRuntime.
Context {rt : Runtime}.

Abbreviation val := (value pyfloat).
Abbreviation pydict := (@dict val).

(** An invocation of [add_numbers] with exactly [a] and [b], neither of
    them [None], or of [say_hello] without argument. *)
Definition well_formed (e : event) : Prop :=
  match e with
  | Invoked name args =>
      (name = "add_numbers"%string ->
       exists x y : val,
         args = [("a"%string, x); ("b"%string, y)]
         /\ x <> VNull /\ y <> VNull) /\
      (name = "say_hello"%string -> args = [])
  | _ => True
  end.

(** An invocation of a tool of the catalog. *)
Definition from_catalog (allowed : list string) (e : event) : Prop :=
  match e with
  | Invoked name _ => In name allowed
  | _ => True
  end.

(** The tool invocations of a log, in order: the n-th one received the
    n-th reply of the Tool Gateway. *)
Definition invocations (lg : list event) : list (string * pydict) :=
  flat_map (fun e => match e with
                     | Invoked name args => [(name, args)]
                     | _ => []
                     end) lg.

(** No invocation of [add_numbers] in the log was answered with a text
    that [float] accepts. *)
Definition no_sum_yet (tool : nat -> reply) (lg : list event) : Prop :=
  forall k args o x,
    nth_error (invocations lg) k = Some ("add_numbers"%string, args) ->
    tool k = Says o -> py_float o = Some x -> False.

(** The count of the calls of the Tool Gateway follows the log, and a sum
    is missing only while no observation gave one. *)
Definition sum_pending (tool : nat -> reply) (l : locals) (w : io) : Prop :=
  invoked w = List.length (invocations (log w)) /\
  (sum_value l = None -> no_sum_yet tool (log w)).

(** A greeting is captured only once the greeting tool was invoked. *)
Definition greeting_earned (l : locals) (w : io) : Prop :=
  greet_msg l <> None ->
  exists args, In (Invoked "say_hello"%string args) (log w).

End WithRuntime.
End Trace.

(** ** Calls that fail without a handler *)

Module Failure.
Import PyDict PyNum Normalizer Agent.
Local Open Scope list_scope.
Section WithRuntime.
Context {rt : Runtime}.

(** The call behind the event [e], made after the events [before], failed
    with no handler around it: the second attempt at the first decision
    raised or its reply is no decision; the request for the two numbers or
    for the next decision raised; a tool invocation raised.  The n-th
    request receives the n-th reply of the Model Gateway, the n-th
    invocation the n-th reply of the Tool Gateway. *)
Definition failed_call (chat tool : nat -> reply) (before : list event)
           (e : event) : Prop :=
  match e with
  | Asked ShapeRepair =>
      match chat (tally is_asked before) with
      | Raises => True
      | Says content => decide content = None
      end
  | Asked ArgFix | Asked NextTurn => chat (tally is_asked before) = Raises
  | Invoked _ _ => tool (tally is_invocation before) = Raises
  | _ => False
  end.

(** The n-th request to the Model Gateway raised, or its reply is no
    decision. *)
Definition undecided (chat : nat -> reply) (n : nat) : Prop :=
  chat n = Raises \/ exists c, chat n = Says c /\ decide c = None.

(** The last action of the log is no such failure. *)
Definition calm (chat tool : nat -> reply) (lg : list event) : Prop :=
  forall before e, lg = before ++ [e] -> ~ failed_call chat tool before e.

(** The counts of the calls follow the log. *)
Definition counted (w : io) : Prop :=
  asked w = tally is_asked (log w) /\
  invoked w = tally is_invocation (log w).

End WithRuntime.
End Failure.

(** ** Occurrences in a text *)

Module Found.

(** The texts [ms] occur in [text] in this order, one after the other,
    without overlap. *)
Fixpoint scattered (ms : list string) (text : string) : Prop :=
  match ms with
  | [] => True
  | m :: ms' =>
      exists gap rest, text = gap ++ m ++ rest /\ scattered ms' rest
  end.

End Found.

(** ** A concrete runtime for the examples *)

Module Demo.
Import PyStr PyDict Agent.

(** Writes a JSON text with apostrophes in place of the double quotes. *)
Fixpoint js (s : string) : string :=
  match s with
  | "" => ""
  | String c s' =>
      String (if Ascii.eqb c "'"%char then ascii_of_nat 34 else c) (js s')
  end.

(** [json.loads] on the texts the examples use.  A float is kept as the
    text [float] was given; the examples only use texts that [str] gives
    back unchanged (such as 19.75). *)
Definition demo_loads (s : string) : option (value string) :=
  if String.eqb s (js "{'final':'Done'}") then
    Some (VDict [("final", VStr "Done")])
  else if String.eqb s (js "{'tool':'say_hello','args':{}}") then
    Some (VDict [("tool", VStr "say_hello"); ("args", VDict [])])
  else if String.eqb s (js "{'tool':'unknown_tool','args':{}}") then
    Some (VDict [("tool", VStr "unknown_tool"); ("args", VDict [])])
  else if String.eqb s (js "{'tool':'add_numbers','args':{'a':' 12','b':'7.25'}}") then
    Some (VDict [("tool", VStr "add_numbers");
                 ("args", VDict [("a", VStr " 12"); ("b", VStr "7.25")])])
  else if String.eqb s (js "{'tool':'add_numbers','args':{}}") then
    Some (VDict [("tool", VStr "add_numbers"); ("args", VDict [])])
  else if String.eqb s (js "{'tool':'add_numbers','args':[{'a':1},{'b':2}]}") then
    Some (VDict [("tool", VStr "add_numbers");
                 ("args", VList [VDict [("a", VInt 1)];
                                 VDict [("b", VInt 2)]])])
  else None.

#[export] Instance demo : Runtime := {|
  pyfloat := string;
  float_value := fun s => s;
  float_str := fun x => x;
  int_max_str_digits := 4300;
  json_loads := demo_loads
|}.

Definition catalog : list string := ["add_numbers"; "say_hello"].

(** Replies of the model used in the examples. *)
Definition final_done : string := js "{'final':'Done'}".
Definition call_say_hello : string := js "{'tool':'say_hello','args':{}}".
Definition call_unknown : string := js "{'tool':'unknown_tool','args':{}}".
Definition call_add_bare : string := js "{'tool':'add_numbers','args':{}}".

End Demo.

(** * Properties *)

Module StrFacts.
Import PyStr.

Lemma app_nil_r (s : string) : s ++ "" = s.
Proof. induction s; simpl; congruence. Qed.

Lemma app_assoc (a b c : string) : (a ++ b) ++ c = a ++ (b ++ c).
Proof. induction a; simpl; congruence. Qed.

Lemma length_app (a b : string) : length (a ++ b) = length a + length b.
Proof. induction a; simpl; auto. Qed.

Lemma count_app (c : ascii) (a b : string) :
  count c (a ++ b) = count c a + count c b.
Proof. induction a; simpl; auto. rewrite IHa. lia. Qed.

Lemma substring_app_mid (pre r post : string) :
  substring (length pre) (length r) (pre ++ r ++ post) = r.
Proof.
  induction pre as [|c pre IH]; simpl.
  - induction r as [|x r IHr]; simpl.
    + now destruct post.
    + now rewrite IHr.
  - exact IH.
Qed.

(** Two ways of cutting one text: one cut point lies before the other. *)
Lemma app_eq_app (a b c d : string) :
  a ++ b = c ++ d ->
  (exists e, c = a ++ e /\ b = e ++ d) \/ (exists e, a = c ++ e /\ d = e ++ b).
Proof.
  revert c. induction a as [|x a IH]; intros c H; simpl in *.
  - left. exists c. auto.
  - destruct c as [|y c]; simpl in *.
    + right. exists (String x a). auto.
    + injection H as -> H. destruct (IH _ H) as [[e [-> ->]]|[e [-> ->]]].
      * left. now exists e.
      * right. now exists e.
Qed.

(** A text that is not empty ends with a character. *)
Lemma snoc_inv (s : string) :
  s <> "" -> exists p c, s = p ++ String c "".
Proof.
  induction s as [|x s IH]; [congruence|]. intros _.
  destruct s as [|y s].
  - now exists "", x.
  - destruct IH as [p [c E]]; [congruence|]. rewrite E.
    now exists (String x p), c.
Qed.

End StrFacts.

Module ExtractorFacts.
Import PyStr Extractor StrFacts.

(** Before any brace is open, text without an opening brace yields nothing. *)
Lemma scan_no_open (rest : string) (i : nat) (start : Z) :
  count lbrace rest = 0 -> scan_braces rest i 0 start = None.
Proof.
  revert i. induction rest as [|ch rest IH]; intros i H; simpl in *; auto.
  destruct (Ascii.eqb ch lbrace); [discriminate|].
  destruct (Ascii.eqb ch rbrace); simpl; auto.
Qed.

Lemma stays_open_tail (d : nat) (c : ascii) (p : string) (d' : nat) :
  stays_open d (String c p) ->
  count rbrace (String c "") + d' = count lbrace (String c "") + d ->
  stays_open d' p.
Proof.
  intros H E p1 p2 ->.
  specialize (H (String c p1) p2 eq_refl).
  change (String c p1) with (String c "" ++ p1) in H.
  rewrite !count_app in H. lia.
Qed.

Lemma brace_cases (ch : ascii) :
  (Ascii.eqb ch lbrace = true /\ Ascii.eqb ch rbrace = false) \/
  (Ascii.eqb ch lbrace = false /\ Ascii.eqb ch rbrace = true) \/
  (Ascii.eqb ch lbrace = false /\ Ascii.eqb ch rbrace = false).
Proof.
  destruct (Ascii.eqb_spec ch lbrace) as [->|]; [left; split; reflexivity|].
  destruct (Ascii.eqb ch rbrace); auto.
Qed.

Lemma scan_open_complete (p q : string) :
  forall i d start,
    start <> (-1)%Z ->
    stays_open d p ->
    count rbrace p = count lbrace p + d ->
    scan_braces (p ++ String rbrace q) i (S d) start = Some (start, i + length p).
Proof.
  induction p as [|ch p IH]; intros i d start Hs Ho Hc; simpl in *.
  - assert (d = 0) by lia. subst d. simpl.
    destruct (Z.eqb_spec start (-1)); [contradiction|]. simpl.
    f_equal. f_equal. lia.
  - destruct (brace_cases ch) as [[E1 E2]|[[E1 E2]|[E1 E2]]];
      rewrite E1, ?E2 in *; simpl in *.
    + rewrite IH; auto; [f_equal; f_equal; lia| |lia].
      eapply stays_open_tail; [exact Ho|]. simpl. rewrite E1, E2. lia.
    + assert (Hd : 1 <= d).
      { specialize (Ho (String ch "") p eq_refl). simpl in Ho.
        rewrite E1, E2 in Ho. lia. }
      destruct d as [|d]; [lia|]. simpl.
      replace (d - 0) with d by lia.
      rewrite IH; auto; [f_equal; f_equal; lia| |lia].
      eapply stays_open_tail; [exact Ho|]. simpl. rewrite E1, E2. lia.
    + rewrite IH; auto; [f_equal; f_equal; lia|].
      eapply stays_open_tail; [exact Ho|]. simpl. rewrite E1, E2. lia.
Qed.

Lemma stays_open_cons (d d' : nat) (c : ascii) (p : string) :
  stays_open d' p ->
  count rbrace (String c "") + d' = count lbrace (String c "") + d ->
  stays_open d (String c p).
Proof.
  intros H E p1 p2 E'. destruct p1 as [|x p1]; simpl in *; [lia|].
  injection E' as <- ->. specialize (H p1 p2 eq_refl).
  simpl in E. destruct (Ascii.eqb c rbrace), (Ascii.eqb c lbrace); lia.
Qed.

Lemma scan_open_sound (rest : string) :
  forall i d start st j,
    start <> (-1)%Z ->
    scan_braces rest i (S d) start = Some (st, j) ->
    st = start /\
    exists p q, rest = p ++ String rbrace q /\ j = i + length p /\
                stays_open d p /\ count rbrace p = count lbrace p + d.
Proof.
  induction rest as [|ch rest IH]; intros i d start st j Hs H; simpl in H;
    [discriminate|].
  destruct (brace_cases ch) as [[E1 E2]|[[E1 E2]|[E1 E2]]];
    rewrite E1, ?E2 in H; simpl in H.
  - apply IH in H; auto. destruct H as [-> [p [q [-> [-> [Ho Hc]]]]]].
    split; auto. exists (String ch p), q. simpl. rewrite E1, E2.
    repeat split; try lia.
    eapply stays_open_cons; [exact Ho|]. simpl. rewrite E1, E2. lia.
  - destruct d as [|d]; simpl in H.
    + destruct (Z.eqb_spec start (-1)); simpl in H.
      * contradiction.
      * injection H as <- <-. split; auto.
        apply Ascii.eqb_eq in E2. subst ch.
        exists "", rest. simpl. repeat split; try lia.
        intros p1 p2 E. destruct p1; [simpl; lia|discriminate].
    + replace (d - 0) with d in H by lia.
      apply IH in H; auto. destruct H as [-> [p [q [-> [-> [Ho Hc]]]]]].
      split; auto. exists (String ch p), q. simpl. rewrite E1, E2.
      repeat split; try lia.
      eapply stays_open_cons; [exact Ho|]. simpl. rewrite E1, E2. lia.
  - apply IH in H; auto. destruct H as [-> [p [q [-> [-> [Ho Hc]]]]]].
    split; auto. exists (String ch p), q. simpl. rewrite E1, E2.
    repeat split; try lia.
    eapply stays_open_cons; [exact Ho|]. simpl. rewrite E1, E2. lia.
Qed.

(** The loop started afresh finds the block that opens at the first
    opening brace. *)
Lemma scan_complete (pre p q : string) (i : nat) (start : Z) :
  count lbrace pre = 0 ->
  stays_open 0 p ->
  count rbrace p = count lbrace p ->
  scan_braces (pre ++ String lbrace (p ++ String rbrace q)) i 0 start
  = Some (Z.of_nat (i + length pre), i + length pre + 1 + length p).
Proof.
  revert i. induction pre as [|ch pre IH]; intros i Hp Ho Hc; simpl in *.
  - rewrite scan_open_complete; auto; try lia.
    f_equal. f_equal; [f_equal|]; lia.
  - destruct (Ascii.eqb ch lbrace); [discriminate|].
    assert (E : scan_braces (pre ++ String lbrace (p ++ String rbrace q))
                            (S i) 0 start
                = Some (Z.of_nat (S i + length pre),
                        S i + length pre + 1 + length p)) by (apply IH; auto).
    replace (i + S (length pre)) with (S i + length pre) by lia.
    destruct (Ascii.eqb ch rbrace); simpl; exact E.
Qed.

Lemma scan_sound (rest : string) :
  forall i start st j,
    scan_braces rest i 0 start = Some (st, j) ->
    exists pre p q,
      rest = pre ++ String lbrace (p ++ String rbrace q) /\
      count lbrace pre = 0 /\
      st = Z.of_nat (i + length pre) /\ j = i + length pre + 1 + length p /\
      stays_open 0 p /\ count rbrace p = count lbrace p.
Proof.
  induction rest as [|ch rest IH]; intros i start st j H; simpl in H;
    [discriminate|].
  destruct (brace_cases ch) as [[E1 E2]|[[E1 E2]|[E1 E2]]];
    rewrite E1, ?E2 in H; simpl in H.
  - apply scan_open_sound in H; [|lia].
    destruct H as [-> [p [q [-> [-> [Ho Hc]]]]]].
    apply Ascii.eqb_eq in E1. subst ch.
    exists "", p, q. simpl. repeat split; auto; try lia; f_equal; lia.
  - apply IH in H. destruct H as [pre [p [q [-> [Hp [-> [-> [Ho Hc]]]]]]]].
    exists (String ch pre), p, q. simpl. rewrite E1.
    repeat split; auto; try lia; f_equal; lia.
  - apply IH in H. destruct H as [pre [p [q [-> [Hp [-> [-> [Ho Hc]]]]]]]].
    exists (String ch pre), p, q. simpl. rewrite E1.
    repeat split; auto; try lia; f_equal; lia.
Qed.

(** A balanced block is an opening brace, a stretch that keeps it open,
    and the closing brace. *)
Lemma balanced_block_intro (p : string) :
  stays_open 0 p -> count rbrace p = count lbrace p ->
  balanced_block (String lbrace (p ++ String rbrace "")).
Proof.
  intros Ho Hc. unfold balanced_block.
  change (String lbrace (p ++ String rbrace ""))
    with (String lbrace "" ++ p ++ String rbrace "").
  rewrite !count_app. simpl. repeat split; try lia.
  intros a b E Ha Hb.
  destruct a as [|x a]; [congruence|]. simpl in E. injection E as <- E.
  apply app_eq_app in E. destruct E as [[e [-> E2]]|[e [-> E2]]].
  - destruct e as [|y e].
    + rewrite app_nil_r. simpl. lia.
    + simpl in E2. injection E2 as _ E2.
      destruct e; destruct b; simpl in E2; congruence.
  - specialize (Ho a e eq_refl). simpl. lia.
Qed.

Lemma balanced_block_inv (r : string) :
  balanced_block r ->
  exists p, r = String lbrace (p ++ String rbrace "") /\
            stays_open 0 p /\ count rbrace p = count lbrace p.
Proof.
  intros [Hpos [Heq Hpre]].
  destruct r as [|x r]; [simpl in Hpos; lia|].
  destruct (string_dec r "") as [->|Hr].
  { simpl in Heq, Hpos.
    destruct (brace_cases x) as [[E1 E2]|[[E1 E2]|[E1 E2]]];
      rewrite E1, E2 in *; simpl in *; lia. }
  assert (Hx : x = lbrace).
  { specialize (Hpre (String x "") r eq_refl). simpl in Hpre.
    destruct (Ascii.eqb_spec x lbrace); auto.
    assert (String x "" <> "") by congruence.
    destruct (Ascii.eqb x rbrace); simpl in Hpre;
      specialize (Hpre H Hr); lia. }
  subst x.
  destruct (snoc_inv r Hr) as [p [c ->]].
  assert (H1 := Hpre (String lbrace p) (String c "") eq_refl).
  change (String lbrace (p ++ String c ""))
    with (String lbrace "" ++ p ++ String c "") in Heq.
  rewrite !count_app in Heq. simpl in Heq, H1.
  assert (H1' : count rbrace p < 1 + count lbrace p)
    by (apply H1; congruence).
  assert (Hc : c = rbrace).
  { destruct (Ascii.eqb_spec c rbrace); auto.
    destruct (Ascii.eqb c lbrace); simpl in Heq; lia. }
  subst c. simpl in Heq. exists p. repeat split; try lia.
  intros p1 p2 ->.
  assert (H2 := Hpre (String lbrace p1) (p2 ++ String rbrace "")).
  simpl in H2. rewrite app_assoc in H2.
  assert (count rbrace p1 < 1 + count lbrace p1).
  { apply H2; auto; try congruence. destruct p2; discriminate. }
  lia.
Qed.

(** [_extract_first_json_object] returns exactly the first top-level
    balanced block of the stripped text. *)
Lemma extract_iff (text r : string) :
  _extract_first_json_object text = Some r <->
  first_block (_strip_fences_and_prose text) r.
Proof.
  unfold _extract_first_json_object, first_block.
  set (t := _strip_fences_and_prose text). split.
  - destruct (scan_braces t 0 0 (-1)) as [[st j]|] eqn:E; [|discriminate].
    intros H. injection H as <-.
    apply scan_sound in E.
    destruct E as [pre [p [q [Et [Hp [-> [-> [Ho Hc]]]]]]]].
    assert (Et' : t = pre ++ String lbrace (p ++ String rbrace "") ++ q).
    { rewrite Et. simpl. now rewrite app_assoc. }
    assert (Es : slice t (Z.to_nat (Z.of_nat (0 + length pre)))
                       (0 + length pre + 1 + length p + 1)
                 = String lbrace (p ++ String rbrace "")).
    { unfold slice. rewrite Nat2Z.id.
      replace (0 + length pre + 1 + length p + 1 - (0 + length pre))
        with (length (String lbrace (p ++ String rbrace "")))
        by (simpl; rewrite length_app; simpl; lia).
      rewrite Et'. apply substring_app_mid. }
    rewrite Es. exists pre, q.
    split; [exact Et'|]. split; [exact Hp|]. now apply balanced_block_intro.
  - intros [pre [post [Et [Hp Hb]]]].
    apply balanced_block_inv in Hb. destruct Hb as [p [-> [Ho Hc]]].
    assert (Et' : t = pre ++ String lbrace (p ++ String rbrace post)).
    { rewrite Et. simpl. now rewrite app_assoc. }
    rewrite Et' at 1. rewrite scan_complete; auto.
    unfold slice. rewrite Nat2Z.id. f_equal.
    replace (0 + length pre + 1 + length p + 1 - (0 + length pre))
      with (length (String lbrace (p ++ String rbrace "")))
      by (simpl; rewrite length_app; simpl; lia).
    rewrite Et. apply substring_app_mid.
Qed.

End ExtractorFacts.

Module NumFacts.
Import PyStr PyNum NumRe StrFacts.

Ltac each_char c :=
  destruct c as [[] [] [] [] [] [] [] []]; try reflexivity; try discriminate.

Lemma digit_not_space (c : ascii) : is_digit c = true -> is_c_space c = false.
Proof. each_char c. Qed.
Lemma digit_not_sign (c : ascii) : is_digit c = true -> is_sign c = false.
Proof. each_char c. Qed.
Lemma digit_not_underscore (c : ascii) :
  is_digit c = true -> is_underscore c = false.
Proof. each_char c. Qed.
Lemma sign_not_space (c : ascii) : is_sign c = true -> is_c_space c = false.
Proof. each_char c. Qed.
Lemma sign_not_underscore (c : ascii) :
  is_sign c = true -> is_underscore c = false.
Proof. each_char c. Qed.
Lemma dot_not_space (c : ascii) : is_dot c = true -> is_c_space c = false.
Proof. each_char c. Qed.
Lemma dot_not_sign (c : ascii) : is_dot c = true -> is_sign c = false.
Proof. each_char c. Qed.
Lemma dot_not_digit (c : ascii) : is_dot c = true -> is_digit c = false.
Proof. each_char c. Qed.
Lemma dot_not_underscore (c : ascii) :
  is_dot c = true -> is_underscore c = false.
Proof. each_char c. Qed.
Lemma exp_not_digit (c : ascii) : is_exp c = true -> is_digit c = false.
Proof. each_char c. Qed.
Lemma exp_not_dot (c : ascii) : is_exp c = true -> is_dot c = false.
Proof. each_char c. Qed.
Lemma exp_not_underscore (c : ascii) :
  is_exp c = true -> is_underscore c = false.
Proof. each_char c. Qed.

Lemma all_chars_app (p : ascii -> bool) (a b : string) :
  all_chars p (a ++ b) = all_chars p a && all_chars p b.
Proof. induction a; simpl; auto. rewrite IHa. now rewrite andb_assoc. Qed.

Lemma mem_char_app (c : ascii) (a b : string) :
  mem_char c (a ++ b) = mem_char c a || mem_char c b.
Proof. induction a; simpl; auto. rewrite IHa. now rewrite orb_assoc. Qed.

(** ** Soundness of the backtracking matcher *)

Lemma star_sound (p : ascii -> bool) (s : string) :
  forall k x, star p s k = Some x ->
  exists w rest, s = w ++ rest /\ all_chars p w = true /\ k rest = Some x.
Proof.
  induction s as [|c s IH]; intros k x H; simpl in H.
  - exists "", "". auto.
  - destruct (p c) eqn:Hp.
    + destruct (star p s k) as [r|] eqn:E.
      * injection H as ->. apply IH in E.
        destruct E as [w [rest [-> [Hw Hk]]]].
        exists (String c w), rest. simpl. rewrite Hp, Hw. auto.
      * exists "", (String c s). auto.
    + exists "", (String c s). auto.
Qed.

Lemma matches_sound (r : re) :
  forall s k x, matches r s k = Some x ->
  exists w rest, s = w ++ rest /\ lang r w /\ k rest = Some x.
Proof.
  induction r as [p|a IHa b IHb|a IHa|p|p]; intros s k x H; simpl in H.
  - destruct s as [|c s]; [discriminate|].
    destruct (p c) eqn:Hp; [|discriminate].
    exists (String c ""), s. simpl. repeat split; eauto.
  - apply IHa in H. destruct H as [u [rest [-> [Hu H]]]].
    apply IHb in H. destruct H as [v [rest' [-> [Hv H]]]].
    exists (u ++ v), rest'. rewrite app_assoc. simpl. repeat split; eauto.
  - destruct (matches a s k) as [y|] eqn:E.
    + injection H as ->. apply IHa in E.
      destruct E as [w [rest [-> [Hw Hk]]]].
      exists w, rest. simpl. auto.
    + exists "", s. simpl. auto.
  - apply star_sound in H. exact H.
  - destruct s as [|c s]; [discriminate|].
    destruct (p c) eqn:Hp; [|discriminate].
    apply star_sound in H. destruct H as [w [rest [-> [Hw Hk]]]].
    exists (String c w), rest. simpl. rewrite Hp, Hw.
    repeat split; auto. discriminate.
Qed.

Lemma substring_prefix (w rest : string) :
  substring 0 (length w) (w ++ rest) = w.
Proof. exact (substring_app_mid "" w rest). Qed.

Lemma match_at_lang (r : re) (s m : string) :
  match_at r s = Some m -> lang r m.
Proof.
  unfold match_at. intros H.
  destruct (matches r s (fun rest => Some rest)) as [rest|] eqn:E;
    [|discriminate].
  injection H as <-. apply matches_sound in E.
  destruct E as [w [rest' [-> [Hw Hk]]]]. injection Hk as ->.
  rewrite length_app.
  replace (length w + length rest - length rest) with (length w) by lia.
  now rewrite substring_prefix.
Qed.

Lemma findall_from_lang (r : re) (s : string) :
  forall skip m, In m (findall_from r skip s) -> lang r m.
Proof.
  induction s as [|c s IH]; intros skip m H.
  - destruct skip; simpl in H; [|contradiction].
    destruct (match_at r "") eqn:E; simpl in H; [|contradiction].
    destruct H as [<-|[]]. eapply match_at_lang; eauto.
  - destruct skip; simpl in H; [|eauto].
    destruct (match_at r (String c s)) eqn:E.
    + destruct H as [<-|H]; [eapply match_at_lang; eauto|eauto].
    + eauto.
Qed.

(** ** Every numeric literal is a text [float] accepts *)

Lemma span_digits_app (d rest : string) :
  all_chars is_digit d = true -> head_not is_digit rest ->
  span_digits (d ++ rest) = (length d, rest).
Proof.
  intros Hd Hr. induction d as [|c d IH]; simpl in *.
  - destruct rest as [|x rest]; simpl in *; auto. now rewrite Hr.
  - apply andb_prop in Hd. destruct Hd as [Hc Hd]. rewrite Hc, IH; auto.
Qed.

Lemma lskip_head (s : string) : head_not is_c_space s -> lskip s = s.
Proof. destruct s; simpl; auto. now intros ->. Qed.

Lemma rskip_snoc (s : string) (c : ascii) :
  is_c_space c = false -> rskip (s ++ String c "") = s ++ String c "".
Proof.
  intros Hc. induction s as [|x s IH]; simpl.
  - now rewrite Hc.
  - rewrite IH. destruct (s ++ String c "") eqn:E; auto.
    destruct s; discriminate.
Qed.

Lemma digits_end (d : string) :
  d <> "" -> all_chars is_digit d = true -> ends_with_digit d.
Proof.
  intros Hn Hd. destruct (snoc_inv d Hn) as [s [c ->]].
  exists s, c. split; auto. rewrite all_chars_app in Hd.
  apply andb_prop in Hd. destruct Hd as [_ Hd]. simpl in Hd.
  now rewrite andb_true_r in Hd.
Qed.

Lemma ends_with_digit_app (a b : string) :
  ends_with_digit b -> ends_with_digit (a ++ b).
Proof.
  intros [s [c [-> Hc]]]. exists (a ++ s), c. now rewrite app_assoc.
Qed.

Lemma rskip_ends_with_digit (w : string) : ends_with_digit w -> rskip w = w.
Proof.
  intros [s [c [-> Hc]]]. apply rskip_snoc. now apply digit_not_space.
Qed.

Lemma exponent_part_ok (ex : string) :
  lang exponent_part ex ->
  exponent ex = Some "" /\ ends_with_digit ex /\ head_not is_digit ex /\
  head_not is_dot ex /\ mem_char "_"%char ex = false /\ ex <> "".
Proof.
  simpl. intros [u [v [-> [[c [-> Hc]] [sg [d [-> [Hsg [Hn Hd]]]]]]]]].
  assert (Hend : ends_with_digit d) by now apply digits_end.
  assert (Hmd : mem_char "_"%char d = false).
  { clear Hn Hend. induction d as [|x d IH]; simpl in *; auto.
    apply andb_prop in Hd. destruct Hd as [Hx Hd].
    apply digit_not_underscore in Hx. unfold is_underscore in Hx.
    rewrite Hx. auto. }
  assert (Hskip : skip_sign (sg ++ d) = d).
  { destruct Hsg as [->|[s [-> Hs]]]; simpl.
    - destruct d as [|x d]; [congruence|]. simpl in *.
      apply andb_prop in Hd. destruct Hd as [Hx _].
      now rewrite (digit_not_sign _ Hx).
    - now rewrite Hs. }
  unfold is_exp in Hc.
  repeat split.
  - simpl. fold (is_exp c). unfold is_exp. rewrite Hc. rewrite Hskip.
    rewrite <- (app_nil_r d) at 1. rewrite span_digits_app; simpl; auto.
    destruct d; [congruence|reflexivity].
  - apply (ends_with_digit_app (String c "")).
    now apply ends_with_digit_app.
  - simpl. now apply exp_not_digit.
  - simpl. now apply exp_not_dot.
  - simpl. rewrite mem_char_app, Hmd.
    pose proof (exp_not_underscore c Hc) as Hu. unfold is_underscore in Hu.
    rewrite Hu. simpl.
    destruct Hsg as [->|[s [-> Hs]]]; simpl; auto.
    pose proof (sign_not_underscore s Hs) as Hu'.
    unfold is_underscore in Hu'. now rewrite Hu'.
  - discriminate.
Qed.

Lemma digits_no_underscore (d : string) :
  all_chars is_digit d = true -> mem_char "_"%char d = false.
Proof.
  induction d as [|x d IH]; simpl; auto. intros H.
  apply andb_prop in H. destruct H as [Hx Hd].
  apply digit_not_underscore in Hx. unfold is_underscore in Hx.
  rewrite Hx. auto.
Qed.

(** The unsigned part of a literal is a decimal text. *)
Lemma mantissa_ok (d1 dt d2 ex : string) :
  all_chars is_digit d1 = true ->
  dt = "" \/ (exists c, dt = String c "" /\ is_dot c = true) ->
  d2 <> "" -> all_chars is_digit d2 = true ->
  ex = "" \/ lang exponent_part ex ->
  let body := d1 ++ dt ++ d2 ++ ex in
  decimal_text body = true /\ ends_with_digit body /\
  head_not is_sign body /\ head_not is_c_space body /\
  mem_char "_"%char body = false.
Proof.
  intros H1 Hdt Hn H2 Hex body.
  assert (Hx : (ex = "" \/ exponent ex = Some "") /\ head_not is_digit ex /\
               head_not is_dot ex /\ mem_char "_"%char ex = false /\
               ends_with_digit (d2 ++ ex)).
  { destruct Hex as [->|Hex].
    - rewrite app_nil_r. simpl. repeat split; auto. now apply digits_end.
    - apply exponent_part_ok in Hex.
      destruct Hex as [He [Hend [Hd [Hp [Hm _]]]]].
      repeat split; auto. now apply ends_with_digit_app. }
  destruct Hx as [He [Hhd [Hhp [Hm Hend]]]].
  assert (Htail : forall r, r = "" \/ exponent r = Some "" ->
                  match r with
                  | "" => true
                  | _ => match exponent r with Some "" => true | _ => false end
                  end = true).
  { intros r [->|Hr]; auto. destruct r; auto. now rewrite Hr. }
  assert (Hd2 : exists x d2', d2 = String x d2' /\ is_digit x = true).
  { destruct d2 as [|x d2']; [congruence|]. simpl in H2.
    apply andb_prop in H2. destruct H2 as [Hx _]. eauto. }
  destruct Hd2 as [x [d2' [Ed2 Hx]]].
  split; [|split; [|split; [|split]]].
  - unfold decimal_text, body.
    destruct Hdt as [->|[c [-> Hc]]]; simpl.
    + rewrite <- app_assoc. rewrite span_digits_app; auto.
      2:{ rewrite all_chars_app, H1, H2. reflexivity. }
      assert (Hlen : (length (d1 ++ d2) + 0 =? 0) = false).
      { rewrite length_app, Ed2. simpl. apply Nat.eqb_neq. lia. }
      destruct ex as [|e ex'].
      * rewrite Hlen. reflexivity.
      * simpl in Hhp. unfold is_dot in Hhp. rewrite Hhp, Hlen.
        apply (Htail (String e ex')). auto.
    + rewrite span_digits_app; auto.
      2:{ simpl. now apply dot_not_digit. }
      unfold is_dot in Hc. rewrite Hc.
      rewrite span_digits_app; auto.
      replace (length d1 + length d2 =? 0) with false.
      * now apply Htail.
      * symmetry. apply Nat.eqb_neq. rewrite Ed2. simpl. lia.
  - unfold body. apply ends_with_digit_app. now apply ends_with_digit_app.
  - unfold body. destruct d1 as [|y d1']; simpl in *.
    + destruct Hdt as [->|[c [-> Hc]]]; simpl.
      * rewrite Ed2. simpl. now apply digit_not_sign.
      * now apply dot_not_sign.
    + apply andb_prop in H1. destruct H1 as [Hy _]. now apply digit_not_sign.
  - unfold body. destruct d1 as [|y d1']; simpl in *.
    + destruct Hdt as [->|[c [-> Hc]]]; simpl.
      * rewrite Ed2. simpl. now apply digit_not_space.
      * now apply dot_not_space.
    + apply andb_prop in H1. destruct H1 as [Hy _]. now apply digit_not_space.
  - unfold body. rewrite !mem_char_app, Hm.
    rewrite (digits_no_underscore d1 H1), (digits_no_underscore d2 H2).
    destruct Hdt as [->|[c [-> Hc]]]; simpl; auto.
    pose proof (dot_not_underscore c Hc) as Hu. unfold is_underscore in Hu.
    now rewrite Hu.
Qed.

(** Every text the pattern denotes is accepted by [float]. *)
Lemma num_re_float_text (w : string) : lang _NUM_RE w -> float_text w = true.
Proof.
  intros H. simpl in H.
  destruct H as (sg & w1 & -> & Hsg & d1 & w2 & -> & H1 & dt & w3 & -> & Hdt
                 & d2 & ex & -> & (Hn & H2) & Hex).
  destruct (mantissa_ok d1 dt d2 ex H1 Hdt Hn H2 Hex)
    as [Hdec [Hend [Hns [Hsp Hm]]]].
  set (body := d1 ++ dt ++ d2 ++ ex) in *.
  unfold float_text.
  assert (Hmw : mem_char "_"%char (sg ++ body) = false).
  { rewrite mem_char_app, Hm. destruct Hsg as [->|[c [-> Hc]]]; simpl; auto.
    pose proof (sign_not_underscore c Hc) as Hu. unfold is_underscore in Hu.
    now rewrite Hu. }
  rewrite Hmw. unfold float_inner.
  assert (Hw : skip_sign (rskip (lskip (sg ++ body))) = body).
  { destruct Hsg as [->|[c [-> Hc]]]; simpl app.
    - rewrite lskip_head by exact Hsp.
      rewrite rskip_ends_with_digit by exact Hend.
      destruct body; simpl in *; auto. now rewrite Hns.
    - rewrite lskip_head by (simpl; now apply sign_not_space).
      rewrite rskip_ends_with_digit
        by (apply (ends_with_digit_app (String c "")); exact Hend).
      simpl. now rewrite Hc. }
  rewrite Hw, Hdec. reflexivity.
Qed.

(** Each literal [findall] reports converts. *)
Lemma findall_float_text (text m : string) :
  In m (findall _NUM_RE text) -> float_text m = true.
Proof.
  intros H. apply num_re_float_text. eapply findall_from_lang. exact H.
Qed.

Section WithRuntime.
Context {rt : Runtime}.

Lemma int_digits_all (d : string) :
  forall acc n,
    all_chars is_digit d = true ->
    exists v, int_digits d false acc n = Some (v, n + length d, "").
Proof.
  induction d as [|c d IH]; intros acc n H; simpl in *.
  - exists acc. do 2 f_equal. f_equal. lia.
  - apply andb_prop in H. destruct H as [Hc Hd]. rewrite Hc.
    destruct (IH (acc * 10 + digit_value c)%Z (S n) Hd) as [v Hv].
    exists v. rewrite Hv. do 2 f_equal. f_equal. lia.
Qed.

(** Digits alone, within the limit, are an integer text. *)
Lemma int_body_digits (d : string) :
  d <> "" -> all_chars is_digit d = true ->
  int_max_str_digits = 0 \/ length d <= int_max_str_digits ->
  exists v, int_body d = Some v.
Proof.
  intros Hn Hd Hl. destruct d as [|c d']; [congruence|].
  unfold int_body.
  assert (Hc : is_digit c = true)
    by (simpl in Hd; now apply andb_prop in Hd).
  rewrite (digit_not_underscore c Hc).
  destruct (int_digits_all (String c d') 0%Z 0 Hd) as [v Hv].
  rewrite Hv. cbn [Nat.add length Nat.eqb all_chars negb].
  exists v.
  destruct Hl as [Hl|Hl].
  - rewrite Hl. reflexivity.
  - assert (E : (int_max_str_digits <? S (length d')) = false)
      by (apply Nat.ltb_ge; simpl in Hl; lia).
    rewrite E. now rewrite andb_false_r.
Qed.

Lemma is_sign_cases (c : ascii) :
  is_sign c = true ->
  Ascii.eqb c "-"%char = true \/
  (Ascii.eqb c "-"%char = false /\ Ascii.eqb c "+"%char = true).
Proof.
  unfold is_sign. destruct (Ascii.eqb c "-"%char); auto.
  rewrite orb_false_r. auto.
Qed.

Lemma is_sign_not (c : ascii) :
  is_sign c = false ->
  Ascii.eqb c "-"%char = false /\ Ascii.eqb c "+"%char = false.
Proof.
  unfold is_sign. intros H. apply orb_false_elim in H. tauto.
Qed.

(** An optional sign and digits, within the limit, are accepted by [int]. *)
Lemma py_int_literal (sg d : string) :
  sg = "" \/ (exists c, sg = String c "" /\ is_sign c = true) ->
  d <> "" -> all_chars is_digit d = true ->
  int_max_str_digits = 0 \/ length d <= int_max_str_digits ->
  exists v, py_int (sg ++ d) = Some v.
Proof.
  intros Hsg Hn Hd Hl.
  destruct (int_body_digits d Hn Hd Hl) as [v Hv].
  unfold py_int. destruct Hsg as [->|[c [-> Hc]]]; cbn [append].
  - destruct d as [|x d']; [congruence|].
    assert (Hx : is_digit x = true)
      by (simpl in Hd; now apply andb_prop in Hd).
    rewrite lskip_head by (simpl; now apply digit_not_space).
    cbv beta iota.
    destruct (is_sign_not x (digit_not_sign x Hx)) as [-> ->]. eauto.
  - rewrite lskip_head by (simpl; now apply sign_not_space).
    cbv beta iota.
    destruct (is_sign_cases c Hc) as [->|[-> ->]]; rewrite Hv; simpl; eauto.
Qed.

End WithRuntime.

End NumFacts.

Module DictFacts.
Import PyDict.
Local Open Scope list_scope.
Section Dict.
Context {V : Type}.
Implicit Types (d : @dict V) (k : string) (v : V).

Lemma dict_set_app_fresh k v v' d1 d2 :
  ~ In k (keys d1) ->
  dict_set k v (d1 ++ (k, v') :: d2) = d1 ++ (k, v) :: d2.
Proof.
  induction d1 as [|[k1 v1] d1 IH]; intros Hn; simpl.
  - now rewrite String.eqb_refl.
  - destruct (String.eqb_spec k1 k) as [->|Hne].
    + exfalso. apply Hn. now left.
    + rewrite IH; auto. intros H. apply Hn. now right.
Qed.

Lemma dict_get_map (f : V -> V) k d :
  dict_get k (map (fun kv => (fst kv, f (snd kv))) d)
  = option_map f (dict_get k d).
Proof.
  induction d as [|[k1 v1] d IH]; simpl; auto.
  destruct (String.eqb k1 k); auto.
Qed.

Lemma keys_map (f : V -> V) d :
  keys (map (fun kv => (fst kv, f (snd kv))) d) = keys d.
Proof. unfold keys. rewrite map_map. reflexivity. Qed.

End Dict.
End DictFacts.

Module NormalizerFacts.
Import PyStr PyDict PyNum NumRe Normalizer StrFacts NumFacts DictFacts.
Local Open Scope list_scope.
Section WithRuntime.
Context {rt : Runtime}.

Abbreviation val := (value pyfloat).
Abbreviation pydict := (@dict val).

(** One assignment of the loop turns the entry it visits into its coerced
    form and leaves the others alone. *)
Lemma coerce_items_step (done todo : pydict) :
  NoDup (keys (done ++ todo)) ->
  coerce_items todo (map coerce_entry done ++ todo)
  = map coerce_entry (done ++ todo).
Proof.
  revert done. induction todo as [|[k v] todo IH]; intros done Hnd.
  - unfold coerce_items. simpl. now rewrite !List.app_nil_r.
  - assert (Hfresh : ~ In k (keys (map coerce_entry done))).
    { unfold coerce_entry. rewrite keys_map. unfold keys in *.
      rewrite map_app in Hnd. simpl in Hnd.
      apply NoDup_remove_2 in Hnd. intros H. apply Hnd.
      apply in_or_app. now left. }
    assert (Hnd' : NoDup (keys ((done ++ [(k, v)]) ++ todo)))
      by now rewrite <- List.app_assoc.
    assert (Hnext := IH (done ++ [(k, v)]) Hnd').
    rewrite map_app, <- !List.app_assoc in Hnext.
    change (map coerce_entry [(k, v)] ++ todo)
      with (coerce_entry (k, v) :: todo) in Hnext.
    change ([(k, v)] ++ todo) with ((k, v) :: todo) in Hnext.
    unfold coerce_items in *. cbn [fold_left fst snd].
    destruct v; try exact Hnext.
    destruct (convert s) as [n|] eqn:E.
    + rewrite dict_set_app_fresh by exact Hfresh.
      replace (coerce_entry (k, VStr s)) with (k, n) in Hnext;
        [exact Hnext|].
      unfold coerce_entry, coerced. simpl. now rewrite E.
    + replace (coerce_entry (k, VStr s)) with (k, @VStr pyfloat s) in Hnext;
        [exact Hnext|].
      unfold coerce_entry, coerced. simpl. now rewrite E.
Qed.

Lemma coerce_items_map (args : pydict) :
  NoDup (keys args) -> coerce_items args args = map coerce_entry args.
Proof. intros H. exact (coerce_items_step [] args H). Qed.


(** What [coerced] is, case by case. *)
Lemma coerced_cases (v : val) :
  match v with
  | VStr s =>
      coerced v =
        if has_marker s
        then (if float_text s then VFloat (float_value s) else VStr s)
        else match py_int s with Some n => VInt n | None => VStr s end
  | _ => coerced v = v
  end.
Proof.
  destruct v; try reflexivity.
  unfold coerced, convert, py_float.
  destruct (has_marker s).
  - destruct (float_text s); reflexivity.
  - destruct (py_int s); reflexivity.
Qed.

(** A numeric literal is always coerced: to a float when it holds a
    marker, to an integer (within the digit limit) when it holds none. *)
Lemma coerced_literal (s : string) :
  lang _NUM_RE s ->
  (has_marker s = true -> coerced (@VStr pyfloat s) = VFloat (float_value s)) /\
  (has_marker s = false ->
   int_max_str_digits = 0 \/ length s <= int_max_str_digits ->
   exists n, coerced (@VStr pyfloat s) = VInt n).
Proof.
  intros Hs. split.
  - intros Hm. unfold coerced, convert, py_float.
    now rewrite Hm, (num_re_float_text s Hs).
  - intros Hm Hl. unfold coerced, convert. rewrite Hm.
    simpl in Hs.
    destruct Hs as (sg & w1 & -> & Hsg & d1 & w2 & -> & H1 & dt & w3 & ->
                    & Hdt & d2 & ex & -> & (Hn & H2) & Hex).
    unfold has_marker in Hm.
    apply orb_false_elim in Hm. destruct Hm as [Hm HE].
    apply orb_false_elim in Hm. destruct Hm as [Hp He].
    rewrite !mem_char_app in Hp, He, HE.
    repeat match goal with
           | H : _ || _ = false |- _ =>
               apply orb_false_elim in H; destruct H
           end.
    assert (Edt : dt = "").
    { destruct Hdt as [->|[c [-> Hc]]]; auto.
      unfold is_dot in Hc. apply Ascii.eqb_eq in Hc. subst c.
      simpl in *. discriminate. }
    assert (Eex : ex = "").
    { destruct Hex as [->|Hex]; auto. simpl in Hex.
      destruct Hex as (u & v & -> & (c & -> & Hc) & _).
      unfold is_exp in Hc. apply orb_prop in Hc.
      destruct Hc as [Hc|Hc]; apply Ascii.eqb_eq in Hc; subst c;
        simpl in *; discriminate. }
    subst dt ex. cbn [append]. rewrite app_nil_r.
    destruct (py_int_literal sg (d1 ++ d2)) as [v Hv]; auto.
    + destruct d1; simpl; [exact Hn|discriminate].
    + rewrite all_chars_app, H1, H2. reflexivity.
    + destruct Hl as [Hl|Hl]; [now left|right].
      rewrite !length_app in Hl. simpl in Hl. rewrite length_app. lia.
    + rewrite Hv. simpl. eauto.
Qed.

End WithRuntime.
End NormalizerFacts.

Module CanonicalizerFacts.
Import PyStr PyDict PyNum NumRe Canonicalizer NumFacts.
Local Open Scope list_scope.
Section WithRuntime.
Context {rt : Runtime}.

Abbreviation val := (value pyfloat).
Abbreviation pydict := (@dict val).

Lemma is_none_true (v : val) : is_none v = true -> v = VNull.
Proof. destruct v; simpl; congruence. Qed.

(** The arguments [add_numbers] ends with: each slot holds the resolved
    value, or else the guess, and is left out when both are [None]. *)
Lemma canonicalize_add_numbers (args : pydict) (text : string) :
  _canonicalize_args "add_numbers" (VDict args) text =
  let a0 := pick a_keys (lower_keys args) in
  let b0 := pick b_keys (lower_keys args) in
  let g := _extract_two_numbers text in
  let a := if is_none a0 then fst g else a0 in
  let b := if is_none b0 then snd g else b0 in
  (if is_none a then [] else [("a", a)])
  ++ (if is_none b then [] else [("b", b)]).
Proof.
  unfold _canonicalize_args. simpl String.eqb. cbv iota.
  destruct (_extract_two_numbers text) as [ga gb].
  destruct (is_none (pick a_keys (lower_keys args))) eqn:Ea;
    destruct (is_none (pick b_keys (lower_keys args))) eqn:Eb;
    cbn [orb fst snd negb];
    repeat match goal with
           | |- context [is_none ?x] =>
               first [rewrite Ea | rewrite Eb | destruct (is_none x) eqn:?]
           end;
    reflexivity.
Qed.

(** Read back from its own output, each slot resolves to itself. *)
Lemma pick_own_output (a b : val) :
  let out := (if is_none a then [] else [("a", a)])
             ++ (if is_none b then [] else [("b", b)]) in
  pick a_keys (lower_keys out) = a /\ pick b_keys (lower_keys out) = b.
Proof.
  destruct (is_none a) eqn:Ea; destruct (is_none b) eqn:Eb;
    try (apply is_none_true in Ea; subst a);
    try (apply is_none_true in Eb; subst b);
    split; reflexivity.
Qed.

Lemma extract_two_numbers_cases (text : string) :
  match findall _NUM_RE text with
  | n0 :: n1 :: _ =>
      _extract_two_numbers text
      = (VFloat (float_value n0), VFloat (float_value n1))
  | _ => _extract_two_numbers text = (VNull, VNull)
  end.
Proof.
  unfold _extract_two_numbers.
  destruct (findall _NUM_RE text) as [|n0 [|n1 more]] eqn:E; auto.
  unfold py_float.
  rewrite (findall_float_text text n0), (findall_float_text text n1);
    auto; rewrite E; simpl; auto.
Qed.

End WithRuntime.
End CanonicalizerFacts.


Module DecisionFacts.
Import PyStr PyDict PyNum NumRe Extractor Normalizer Canonicalizer Agent Demo.
Import StrFacts ExtractorFacts NumFacts DictFacts NormalizerFacts CanonicalizerFacts.

Lemma find_char_drop (c : ascii) (s : string) :
  (find_char c s = (-1)%Z /\ count c s = 0) \/
  (exists t, (0 <= find_char c s)%Z /\
             drop (Z.to_nat (find_char c s)) s = String c t).
Proof.
  induction s as [|x s IH]; cbn [find_char count].
  - left. auto.
  - destruct (Ascii.eqb_spec x c) as [->|Hne].
    + right. exists s. split; [lia|reflexivity].
    + destruct IH as [[E C]|[t [Hp Ht]]].
      * left. rewrite E, C. auto.
      * right. exists t.
        assert (Em : match find_char c s with
                     | Zneg _ => (-1)%Z
                     | k => Z.succ k
                     end = Z.succ (find_char c s))
          by (destruct (find_char c s); try lia; reflexivity).
        rewrite Em. split; [lia|].
        rewrite Z2Nat.inj_succ by lia. exact Ht.
Qed.

(** After the stripping, nothing stands before the first opening brace. *)
Lemma stripped_head (text : string) :
  count lbrace (_strip_fences_and_prose text) = 0 \/
  exists t, _strip_fences_and_prose text = String lbrace t.
Proof.
  unfold _strip_fences_and_prose.
  set (s := strip (fence_sub 0 true (strip text))).
  destruct (find_char_drop lbrace s) as [[E C]|[t [Hp Ht]]].
  - rewrite E. simpl. now left.
  - right. destruct (Z.ltb_spec 0 (find_char lbrace s)).
    + now exists t.
    + assert (E : find_char lbrace s = 0%Z) by lia.
      rewrite E in Ht. simpl in Ht. now exists t.
Qed.


(** Scenario D: leading prose and a fenced block. *)
Example extract_fenced_reply :
  _extract_first_json_object
    ("Sure! Here is the call:" ++ String newline "```json" ++ String newline
       (js "{'tool':'say_hello','args':{}}") ++ String newline "```")
  = Some (js "{'tool':'say_hello','args':{}}").
Proof. reflexivity. Qed.

(** Unmatched braces: an object left open, a closing brace alone. *)
Example extract_unmatched :
  _extract_first_json_object "{{}" = None /\
  _extract_first_json_object "}" = None /\
  _extract_first_json_object "no braces" = None.
Proof. repeat split; reflexivity. Qed.

Section WithRuntime.
Context {rt : Runtime}.
Abbreviation val := (value pyfloat).
Abbreviation pydict := (@dict val).



(** C9. Canonicalization is idempotent for every tool name, argument
    mapping and user text; [say_hello] yields the empty mapping whatever
    the input, and a tool other than the two known ones gets its arguments
    back unchanged. *)
Theorem canonicalize_idempotent (t : string) (a : pydict) (s : string) :
  _canonicalize_args t (VDict (_canonicalize_args t (VDict a) s)) s
  = _canonicalize_args t (VDict a) s /\
  (forall args : val, _canonicalize_args "say_hello" args s = []) /\
  (t <> "add_numbers" -> t <> "say_hello" ->
   _canonicalize_args t (VDict a) s = a).
Proof.
  split; [|split].
  - destruct (String.eqb_spec t "add_numbers") as [->|Hadd].
    + rewrite (canonicalize_add_numbers (_canonicalize_args _ _ _)).
      rewrite canonicalize_add_numbers. cbv zeta.
      set (a0 := pick a_keys (lower_keys a)).
      set (b0 := pick b_keys (lower_keys a)).
      set (g := _extract_two_numbers s).
      set (x := if is_none a0 then fst g else a0).
      set (y := if is_none b0 then snd g else b0).
      destruct (pick_own_output x y) as [Hx Hy]. cbv zeta in Hx, Hy.
      rewrite Hx, Hy.
      assert (Ex : (if is_none x then fst g else x) = x).
      { unfold x. destruct (is_none a0) eqn:Ea.
        - destruct (is_none (fst g)); reflexivity.
        - now rewrite Ea. }
      assert (Ey : (if is_none y then snd g else y) = y).
      { unfold y. destruct (is_none b0) eqn:Eb.
        - destruct (is_none (snd g)); reflexivity.
        - now rewrite Eb. }
      rewrite Ex, Ey. reflexivity.
    + unfold _canonicalize_args.
      apply String.eqb_neq in Hadd. rewrite Hadd.
      destruct (String.eqb t "say_hello"); reflexivity.
  - reflexivity.
  - intros Hadd Hhello. unfold _canonicalize_args.
    apply String.eqb_neq in Hadd, Hhello. now rewrite Hadd, Hhello.
Qed.

End WithRuntime.





(** A reply with prose and a fence around it, and numbers sent as
    strings: the decision holds an integer and a float. *)
Example decide_coerces_strings :
  decide ("Here you go: " ++
          js "{'tool':'add_numbers','args':{'a':' 12','b':'7.25'}}")
  = Some (ToolCall "add_numbers" [("a", VInt 12); ("b", VFloat "7.25")]).
Proof. reflexivity. Qed.

(** Scenario C: a list of argument objects is merged. *)
Example decide_merges_argument_list :
  decide (js "{'tool':'add_numbers','args':[{'a':1},{'b':2}]}")
  = Some (ToolCall "add_numbers" [("a", VInt 1); ("b", VInt 2)]).
Proof. reflexivity. Qed.

(** The aliases are matched whatever their case. *)
Example canonicalize_aliases :
  _canonicalize_args (rt := demo) "add_numbers"
                     (VDict [("Num1", VInt 1); ("RHS", VInt 2)]) "no numbers"
  = [("a", VInt 1); ("b", VInt 2)].
Proof. reflexivity. Qed.

Lemma canonicalize_idempotent_witness :
  _canonicalize_args (rt := demo) "get_weather" (VDict [("city", VStr "Paris")])
                     "weather in Paris"
  = [("city", VStr "Paris")].
Proof.
  apply (proj2 (proj2
           (canonicalize_idempotent (rt := demo) "get_weather"
              [("city", VStr "Paris")] "weather in Paris")));
    discriminate.
Defined.

End DecisionFacts.

Module AgentFacts.
Import PyStr PyDict PyNum Normalizer Canonicalizer Agent.
Local Open Scope list_scope.

Section WithRuntime.
Context {rt : Runtime}.

Lemma tally_app (p : event -> bool) (a b : list event) :
  tally p (a ++ b) = tally p a + tally p b.
Proof. unfold tally. now rewrite filter_app, length_app. Qed.

Section Run.
Variables (chat tool : nat -> reply).
Variable user_input : string.
Variable allowed : list string.

Local Abbreviation body := (Agent.body chat tool user_input allowed).
Local Abbreviation orchestrate :=
  (Agent.orchestrate chat tool user_input allowed).
Local Abbreviation must_greet := (Agent.must_greet user_input).

(** Case analysis on the innermost scrutinee of a term. *)
Ltac innermost x :=
  lazymatch x with
  | context [match ?y with _ => _ end] => innermost y
  | _ => destruct x eqn:?
  end.

(** Unfolds one iteration into its paths. *)
Ltac paths :=
  unfold Agent.body, on_final, execute, fix_args, _repair_to_known_tool,
    ask, call_tool, note, say_hello_call;
  repeat (cbn beta iota zeta delta [fst snd log asked invoked];
          match goal with
          | |- context [match ?x with _ => _ end] => innermost x
          end);
  cbn beta iota zeta delta [fst snd log asked invoked].

Ltac one_round_tac :=
  eexists; split;
  [ rewrite <- ?List.app_assoc; cbn [List.app]; reflexivity
  | unfold within; cbn; lia ].

Lemma body_round (l : locals) (w : io) :
  match body l w with
  | Next l' w' => steps l' = steps l + 1 /\ one_round (log w) (log w')
  | Done _ w' => one_round (log w) (log w')
  | Stop _ w' => one_round (log w) (log w')
  | Throw w' => one_round (log w) (log w')
  end.
Proof.
  paths; try split; try reflexivity; try one_round_tac.
  all: try (unfold next_round, capture; cbn [steps];
            repeat match goal with
                   | |- context [match ?x with _ => _ end] => destruct x
                   | |- context [if ?x then _ else _] => destruct x
                   end; reflexivity).
Qed.


Lemma orchestrate_done (fuel : nat) (l : locals) (w : io) :
  max_steps <= steps l ->
  orchestrate fuel l w = (Returned (compose_final l), w).
Proof.
  intros H. destruct fuel; simpl;
    destruct (Nat.ltb_spec (steps l) max_steps); auto; lia.
Qed.

Lemma orchestrate_step (fuel : nat) (l : locals) (w : io) :
  steps l < max_steps ->
  orchestrate (S fuel) l w =
  match body l w with
  | Next l' w' => orchestrate fuel l' w'
  | Done answer w' => (Returned answer, w')
  | Stop l' w' => (Returned (compose_final l'), w')
  | Throw w' => (Raised, w')
  end.
Proof.
  intros H. simpl. destruct (Nat.ltb_spec (steps l) max_steps); auto; lia.
Qed.

Lemma within_app (a b : nat) (x y : list event) :
  within a x -> within b y -> within (a + b) (x ++ y).
Proof.
  unfold within. intros [H1 [H2 H3]] [H4 [H5 H6]].
  rewrite !tally_app. lia.
Qed.

(** The loop comes to an end within [max_steps - steps] iterations. *)
Lemma orchestrate_bound (fuel : nat) :
  forall l w,
    max_steps - steps l <= fuel ->
    fst (orchestrate fuel l w) <> Unfinished /\
    exists extra,
      log (snd (orchestrate fuel l w)) = log w ++ extra /\
      within (max_steps - steps l) extra.
Proof.
  assert (Hend : forall fuel l w, max_steps <= steps l ->
            fst (orchestrate fuel l w) <> Unfinished /\
            exists extra,
              log (snd (orchestrate fuel l w)) = log w ++ extra /\
              within (max_steps - steps l) extra).
  { intros f l w H. rewrite orchestrate_done by exact H. simpl.
    split; [discriminate|]. exists []. rewrite List.app_nil_r.
    split; [reflexivity|]. unfold within. cbn. lia. }
  assert (Hlast : forall l w w', steps l < max_steps ->
            one_round (log w) (log w') ->
            exists extra, log w' = log w ++ extra /\
                          within (max_steps - steps l) extra).
  { intros l w w' Hlt [extra [El Hw]]. exists extra. split; [exact El|].
    unfold within in *. lia. }
  induction fuel as [|fuel IH]; intros l w Hf.
  - apply Hend. lia.
  - destruct (Nat.lt_ge_cases (steps l) max_steps) as [Hlt|Hge];
      [|now apply Hend].
    rewrite orchestrate_step by exact Hlt.
    pose proof (body_round l w) as Hb.
    destruct (body l w) as [l' w'|s w'|l' w'|w'].
    + destruct Hb as [Hs [extra [El Hw]]].
      destruct (IH l' w') as [Hu [extra' [El' Hw']]]; [lia|].
      split; [exact Hu|].
      exists (extra ++ extra'). rewrite El', El.
      rewrite <- List.app_assoc. split; [reflexivity|].
      replace (max_steps - steps l) with (1 + (max_steps - steps l')) by lia.
      now apply within_app.
    + cbn [fst snd]. split; [discriminate|]. now apply (Hlast l).
    + cbn [fst snd]. split; [discriminate|]. now apply (Hlast l).
    + cbn [fst snd]. split; [discriminate|]. now apply (Hlast l).
Qed.

(** A property of the locals and the log kept by every iteration holds
    at the end of the loop. *)
Lemma orchestrate_invariant (I : locals -> io -> Prop) (Q : io -> Prop) :
  (forall l w, I l w -> Q w) ->
  (forall l w, I l w ->
     match body l w with
     | Next l' w' => I l' w'
     | Done _ w' => Q w'
     | Stop _ w' => Q w'
     | Throw w' => Q w'
     end) ->
  forall fuel l w, I l w -> Q (snd (orchestrate fuel l w)).
Proof.
  intros HQ Hstep. induction fuel as [|fuel IH]; intros l w HI; simpl.
  - destruct (steps l <? max_steps); simpl; eauto.
  - destruct (steps l <? max_steps); simpl; eauto.
    specialize (Hstep l w HI).
    destruct (body l w); simpl; eauto.
Qed.

(** When both gateways answer every call, no iteration raises. *)
Lemma body_total (l : locals) (w : io) :
  (forall n, chat n <> Raises) -> (forall n, tool n <> Raises) ->
  forall w', body l w <> Throw w'.
Proof.
  intros Hc Ht w'. paths; try discriminate.
  all: try match goal with
           | H : chat _ = Raises |- _ => now apply Hc in H
           | H : tool _ = Raises |- _ => now apply Ht in H
           end.
Qed.

(** An answer returned from inside the loop is composed around a [final]
    the model declared: the decision at hand, or the repaired one. *)
Lemma body_done (l : locals) (w : io) :
  match body l w with
  | Done s _ =>
      exists text,
        s = compose_in_loop l text /\
        (decision_obj l = Final text \/
         exists content, chat (asked w) = Says content /\
                         decide content = Some (Final text))
  | _ => True
  end.
Proof.
  paths; auto;
    eexists; (split; [reflexivity|]); first [now left | right; eauto].
Qed.

Lemma known_say_hello :
  In "say_hello" allowed -> unknown_tool allowed say_hello_call = false.
Proof.
  intros H. simpl. apply negb_false_iff. apply existsb_exists.
  exists "say_hello". split; auto.
Qed.

Lemma capture_keeps_greeting (name o : string) (l : locals) :
  greet_msg (capture name o l) = None -> greet_msg l = None.
Proof.
  unfold capture.
  repeat match goal with
         | |- context [match ?x with _ => _ end] => destruct x
         end; simpl; congruence.
Qed.

Lemma body_override_once (l : locals) (w : io) :
  In "say_hello" allowed ->
  override_once l w ->
  match body l w with
  | Next l' w' => override_once l' w'
  | Done _ w' => tally is_override (log w') <= 1
  | Stop _ w' => tally is_override (log w') <= 1
  | Throw w' => tally is_override (log w') <= 1
  end.
Proof.
  intros Hin [H1 H0]. pose proof (known_say_hello Hin) as Hk.
  unfold override_once, say_hello_call in *.
  paths;
    repeat match goal with
           | H : _ && is_unset (greet_msg l) = true |- _ =>
               apply andb_prop in H; destruct H as [_ H];
               destruct (greet_msg l) eqn:?; [discriminate|];
               specialize (H0 eq_refl)
           end;
    try congruence;
    rewrite ?tally_app;
    cbn [tally filter is_override List.length next_round greet_msg];
    try lia.
  all: try (split; [lia|]).
  all: try (intros Hg; apply capture_keeps_greeting in Hg;
            specialize (H0 Hg); lia).
  all: try (intros Hg; unfold capture in Hg; simpl in Hg; discriminate).
Qed.

(** Once a greeting is captured, an iteration forces nothing and keeps
    the greeting. *)
Lemma body_settled (n : nat) (l : locals) (w : io) :
  settled n l w ->
  match body l w with
  | Next l' w' => settled n l' w'
  | Done _ w' => tally is_forcing (log w') = n
  | Stop _ w' => tally is_forcing (log w') = n
  | Throw w' => tally is_forcing (log w') = n
  end.
Proof.
  intros [Hg Hn]. unfold settled.
  paths;
    repeat match goal with
           | H : _ && is_unset (greet_msg l) = true |- _ =>
               apply andb_prop in H; destruct H as [_ H];
               destruct (greet_msg l); [discriminate|congruence]
           | H : _ && is_unset (greet_msg (capture _ _ l)) = true |- _ =>
               apply andb_prop in H; destruct H as [_ H];
               destruct (greet_msg (capture _ _ l)) eqn:Hc; [discriminate|];
               apply capture_keeps_greeting in Hc; congruence
           end;
    try split;
    try (rewrite ?tally_app;
         cbn [tally filter is_forcing List.length]; lia);
    cbn [next_round greet_msg];
    intros Hc; apply capture_keeps_greeting in Hc; congruence.
Qed.

Lemma orchestrate_settled (n fuel : nat) (l : locals) (w : io) :
  settled n l w -> tally is_forcing (log (snd (orchestrate fuel l w))) = n.
Proof.
  intros H.
  exact (orchestrate_invariant (settled n)
           (fun w => tally is_forcing (log w) = n)
           (fun l w H => proj2 H) (body_settled n) fuel l w H).
Qed.

Lemma canonicalize_say_hello (args : value pyfloat) :
  _canonicalize_args "say_hello" args user_input = [].
Proof. reflexivity. Qed.

(** The iteration that meets a [final] while a greeting is due and none is
    captured: the greeting tool is invoked with no argument before any
    request to the model, and its observation becomes the greeting. *)
Lemma body_forced_greeting (l : locals) (w : io) (text o : string) :
  must_greet = true -> In "say_hello" allowed ->
  greet_msg l = None -> decision_obj l = Final text ->
  tool (invoked w) = Says o ->
  let l1 := {| steps := steps l; decision_obj := decision_obj l;
               sum_value := sum_value l; greet_msg := Some o |} in
  let w1 := {| asked := S (asked w); invoked := S (invoked w);
               log := log w ++ [Round; Overrode; Invoked "say_hello" [];
                                Asked NextTurn] |} in
  body l w =
  match chat (asked w) with
  | Raises => Throw w1
  | Says content =>
      match decide content with
      | Some d => Next (next_round d l1) w1
      | None => Stop l1 w1
      end
  end.
Proof.
  intros Hm Hin Hg Hd Ht. pose proof (known_say_hello Hin) as Hk.
  unfold Agent.body, on_final. rewrite Hd, Hm, Hg.
  cbn [andb is_unset]. rewrite Hk.
  unfold execute, say_hello_call. rewrite canonicalize_say_hello.
  unfold fix_args, incomplete, call_tool, ask, note, capture.
  cbn [String.eqb Ascii.eqb Bool.eqb andb fst snd log asked invoked].
  rewrite Ht. cbn [greet_msg]. rewrite Hm. cbn [andb is_unset].
  rewrite <- !List.app_assoc. cbn [List.app].
  rewrite ?Hd.
  destruct (chat (asked w)); [reflexivity|].
  destruct (decide content); reflexivity.
Qed.

(** The iteration that meets a [final] once the greeting is settled, or
    when none is due: the answer is returned at once. *)
Lemma body_honours_final (l : locals) (w : io) (text : string) :
  must_greet && is_unset (greet_msg l) = false ->
  decision_obj l = Final text ->
  body l w = Done (compose_in_loop l text) (note Round w).
Proof.
  intros Hc Hd. unfold Agent.body, on_final. now rewrite Hd, Hc.
Qed.

(** The first decision costs one request, or two. *)
Lemma first_decision_log :
  log (snd (first_decision chat start)) = [Asked Initial] \/
  log (snd (first_decision chat start)) = [Asked Initial; Asked ShapeRepair].
Proof.
  unfold first_decision, ask, start. cbn [asked log invoked].
  destruct (chat 0) as [|c0]; [|destruct (decide c0)]; auto;
    destruct (chat 1); auto.
Qed.

End Run.

(** ** The claims about the run *)

(** C2. For every behaviour of the two gateways the loop of [agent_run]
    terminates ([max_steps - steps] iterations always suffice, so the run
    never is [Unfinished]); a run has at most [max_steps] = 5 iterations, at
    most 5 tool invocations and at most 17 requests to the model; and an
    iteration that goes on to the next one has incremented the step counter
    by exactly one, the others return, break, or - only when a gateway call
    raises - raise. *)
Theorem loop_terminates_within_max_steps
        (chat tool : nat -> reply) (user_input : string)
        (allowed : list string) :
  (forall l w,
     match body chat tool user_input allowed l w with
     | Next l' _ => steps l' = steps l + 1
     | _ => True
     end) /\
  (forall l w more,
     fst (orchestrate chat tool user_input allowed
                      (max_steps - steps l + more) l w) <> Unfinished) /\
  (forall listed,
     fst (agent_run user_input listed chat tool) <> Unfinished /\
     tally is_round (snd (agent_run user_input listed chat tool)) <= 5 /\
     tally is_invocation (snd (agent_run user_input listed chat tool)) <= 5 /\
     tally is_asked (snd (agent_run user_input listed chat tool)) <= 17) /\
  ((forall n, chat n <> Raises) -> (forall n, tool n <> Raises) ->
   forall l w w', body chat tool user_input allowed l w <> Throw w').
Proof.
  split; [|split; [|split]].
  - intros l w. pose proof (body_round chat tool user_input allowed l w) as H.
    destruct (body chat tool user_input allowed l w); auto. now destruct H.
  - intros l w more. apply orchestrate_bound. lia.
  - intros [allowed'|]; [|simpl; split; [discriminate|cbn; lia]].
    unfold agent_run, run.
    destruct (first_decision chat start) as [[d|] w] eqn:E.
    + set (l := {| steps := 0; decision_obj := d; sum_value := None;
                   greet_msg := None |}).
      destruct (orchestrate_bound chat tool user_input allowed' max_steps l w)
        as [Hu [extra [El [Hr [Hi Ha]]]]]; [unfold max_steps; cbn; lia|].
      destruct (orchestrate chat tool user_input allowed' max_steps l w)
        as [o w'] eqn:Eo.
      cbn [fst snd] in *. split; [exact Hu|].
      assert (Hw : tally is_round (log w) = 0 /\
                   tally is_invocation (log w) = 0 /\
                   tally is_asked (log w) <= 2).
      { pose proof (first_decision_log chat) as Hl. rewrite E in Hl.
        cbn [snd] in Hl. destruct Hl as [-> | ->]; cbn; lia. }
      destruct Hw as [Hw1 [Hw2 Hw3]].
      rewrite El, !tally_app, Hw1, Hw2. cbn [steps l] in Hr, Hi, Ha.
      unfold max_steps in *. lia.
    + cbn [fst snd]. split; [discriminate|].
      pose proof (first_decision_log chat) as Hl. rewrite E in Hl.
      cbn [snd] in Hl. destruct Hl as [-> | ->]; cbn; lia.
  - intros Hc Ht l w w'. now apply body_total.
Qed.



(** C10. An empty observation of the greeting tool is recorded as the
    greeting, so the override and the scheduling, which test for [None],
    never force the greeting again, in no later iteration of the run; the
    compositions, which test the truth value, treat it as absent; and so a
    run that invoked the greeting tool with success can still end with the
    apology or with the sum alone. *)
Theorem empty_greeting_done_but_absent (user_input : string) (l : locals) :
  greet_msg (capture "say_hello" "" l) = Some ""%string /\
  (greet_msg l = Some ""%string ->
   (forall text w,
      on_final user_input l (Final text) w = Answer (compose_in_loop l text)) /\
   must_greet user_input && is_unset (greet_msg l) = false /\
   (forall chat tool allowed fuel w,
      tally is_forcing
            (log (snd (orchestrate chat tool user_input allowed fuel l w)))
      = tally is_forcing (log w))) /\
  (greet_msg l = Some ""%string ->
   let absent := {| steps := steps l; decision_obj := decision_obj l;
                    sum_value := sum_value l; greet_msg := None |} in
   compose_final l = compose_final absent /\
   forall text, compose_in_loop l text = compose_in_loop absent text) /\
  orchestrate (fun _ => Says "") (fun _ => Says "") "say hello"
              ["add_numbers"; "say_hello"] max_steps
              {| steps := 0; decision_obj := say_hello_call;
                 sum_value := None; greet_msg := None |} start
  = (Returned "I couldn't complete the requested steps.",
     {| asked := 1; invoked := 1;
        log := [Round; Invoked "say_hello" []; Asked NextTurn] |}) /\
  orchestrate (fun _ => Says "") (script [Says "3.0"; Says ""])
              "add 1 and 2, then say hello"
              ["add_numbers"; "say_hello"] max_steps
              {| steps := 0;
                 decision_obj :=
                   ToolCall "add_numbers" [("a", VInt 1); ("b", VInt 2)];
                 sum_value := None; greet_msg := None |} start
  = (Returned ("The sum is " ++ float_str (float_value "3.0"))%string,
     {| asked := 1; invoked := 2;
        log := [Round; Invoked "add_numbers" [("a", VInt 1); ("b", VInt 2)];
                Scheduled; Round; Invoked "say_hello" []; Asked NextTurn] |}).
Proof.
  split; [reflexivity|]. split; [|split; [|split]].
  - intros Hg. split; [|split].
    + intros text w. unfold on_final. rewrite Hg. cbn [is_unset].
      now rewrite andb_false_r.
    + rewrite Hg. apply andb_false_r.
    + intros chat tool allowed fuel w. apply orchestrate_settled.
      split; [congruence|reflexivity].
  - intros Hg. unfold compose_final, compose_in_loop. rewrite Hg. simpl.
    split; [|intros text]; destruct (sum_value l); reflexivity.
  - reflexivity.
  - reflexivity.
Qed.

End WithRuntime.

(** ** Runs in the example runtime *)

Import Demo.

(** Scenario A. *)
Example run_add_then_greet :
  agent_run "Please add 12.5 and 7.25, then say hello." (Some catalog)
            (script [Says call_add_bare; Says final_done])
            (script [Says "19.75"; Says "Hello from REST API!"])
  = (Returned "The sum is 19.75. Hello from REST API!",
     [Asked Initial; Round;
      Invoked "add_numbers" [("a", VFloat "12.5"); ("b", VFloat "7.25")];
      Scheduled; Round; Invoked "say_hello" []; Asked NextTurn; Round]).
Proof. reflexivity. Qed.


(** A first call that raises is made up for by the second attempt. *)
Example first_call_failure_recovered :
  agent_run "What time is it?" (Some catalog)
            (script [Raises; Says final_done]) (script [])
  = (Returned "Done", [Asked Initial; Asked ShapeRepair; Round]).
Proof. reflexivity. Qed.

(** Two replies in a row that are no decision end the run with the
    exception of the second attempt. *)
Example malformed_twice_propagates :
  agent_run "add 1 and 2" (Some catalog)
            (script [Says "oops"; Says "oops again"]) (script [])
  = (Raised, [Asked Initial; Asked ShapeRepair]).
Proof. reflexivity. Qed.



(** C5 (the code at the failing input). A repaired decision that still
    names a tool outside the catalog is not checked again: the tool is
    invoked and the loop goes on. *)
Theorem unknown_tool_after_repair_is_invoked :
  agent_run "What is the weather?" (Some catalog)
            (script [Says call_unknown; Says call_unknown; Says final_done])
            (script [Says "Unknown tool: unknown_tool"])
  = (Returned "Done",
     [Asked Initial; Round; Asked ToolRepair; Invoked "unknown_tool" [];
      Asked NextTurn; Round]).
Proof. reflexivity. Qed.

(** Scenario B as far as the code follows it: a repair that raises or
    yields no decision ends the loop with the apology. *)
Example failed_repair_gives_apology :
  agent_run "What is the weather?" (Some catalog)
            (script [Says call_unknown; Says "no idea"]) (script [])
  = (Returned "I couldn't complete the requested steps.",
     [Asked Initial; Round; Asked ToolRepair]) /\
  agent_run "What is the weather?" (Some catalog)
            (script [Says call_unknown; Raises]) (script [])
  = (Returned "I couldn't complete the requested steps.",
     [Asked Initial; Round; Asked ToolRepair]).
Proof. split; reflexivity. Qed.

(** An empty greeting, in whole runs. *)
Example empty_greeting_runs :
  agent_run "say hello" (Some catalog)
            (script [Says call_say_hello; Says "no decision"])
            (script [Says ""])
  = (Returned "I couldn't complete the requested steps.",
     [Asked Initial; Round; Invoked "say_hello" []; Asked NextTurn]) /\
  agent_run "add 12.5 and 7.25, then say hello" (Some catalog)
            (script [Says call_add_bare; Says final_done])
            (script [Says "19.75"; Says ""])
  = (Returned "The sum is 19.75",
     [Asked Initial; Round;
      Invoked "add_numbers" [("a", VFloat "12.5"); ("b", VFloat "7.25")];
      Scheduled; Round; Invoked "say_hello" []; Asked NextTurn; Round]).
Proof. split; reflexivity. Qed.

Lemma loop_terminates_within_max_steps_witness :
  (forall n, (fun _ : nat => Says "") n <> Raises) /\
  forall w',
    body (fun _ => Says "") (fun _ => Says "") "say hello" catalog
         {| steps := 0; decision_obj := say_hello_call;
            sum_value := None; greet_msg := None |} start
    <> Throw w'.
Proof.
  split; [discriminate|].
  apply (proj2 (proj2 (proj2
           (loop_terminates_within_max_steps
              (fun _ => Says "") (fun _ => Says "") "say hello" catalog))));
    discriminate.
Defined.



Lemma empty_greeting_done_but_absent_witness :
  must_greet "say hello"
  && is_unset (greet_msg {| steps := 1; decision_obj := Final "Done";
                            sum_value := None; greet_msg := Some ""%string |})
  = false.
Proof.
  apply (proj1 (proj2 (proj1 (proj2
           (empty_greeting_done_but_absent "say hello"
              {| steps := 1; decision_obj := Final "Done";
                 sum_value := None; greet_msg := Some ""%string |}))
           eq_refl))).
Defined.

End AgentFacts.

Module FenceFacts.
Import PyStr PyDict Extractor Lines Normalizer Agent Demo.
Import StrFacts ExtractorFacts.

Lemma fence_match_plain (bol : bool) (c : ascii) (s : string) :
  Ascii.eqb c backtick = false -> fence_match bol (String c s) = None.
Proof.
  intros H. unfold fence_match. cbn [prefix].
  destruct (Ascii.ascii_dec "`"%char c) as [E|E]; [|reflexivity].
  subst c. vm_compute in H. discriminate.
Qed.

(** Without a backtick there is no fence to remove. *)
Lemma fence_sub_plain (s : string) :
  forall bol, count backtick s = 0 -> fence_sub 0 bol s = s.
Proof.
  induction s as [|c s IH]; intros bol H; simpl in *; auto.
  destruct (Ascii.eqb c backtick) eqn:E; [discriminate|].
  rewrite (fence_match_plain bol c s E). fold fence_sub.
  now rewrite IH.
Qed.

Lemma lstrip_app (a b : string) :
  PyNum.head_not is_space b -> lstrip (a ++ b) = lstrip a ++ b.
Proof.
  intros Hb. induction a as [|c a IH]; simpl.
  - destruct b; simpl in *; auto. now rewrite Hb.
  - destruct (is_space c); auto.
Qed.

Lemma rstrip_snoc (s : string) (c : ascii) :
  is_space c = false -> rstrip (s ++ String c "") = s ++ String c "".
Proof.
  intros Hc. induction s as [|x s IH]; simpl.
  - now rewrite Hc.
  - rewrite IH. destruct (s ++ String c "") eqn:E; auto.
    destruct s; discriminate.
Qed.

Lemma rstrip_app (a b : string) (c : ascii) :
  is_space c = false ->
  rstrip ((a ++ String c "") ++ b) = (a ++ String c "") ++ rstrip b.
Proof.
  intros Hc. induction a as [|x a IH]; simpl.
  - destruct (rstrip b) eqn:E; simpl; [now rewrite Hc|reflexivity].
  - rewrite IH. destruct ((a ++ String c "") ++ rstrip b) eqn:E; auto.
    destruct a; discriminate.
Qed.

Lemma count_lstrip (c : ascii) (s : string) :
  count c s = 0 -> count c (lstrip s) = 0.
Proof.
  induction s as [|x s IH]; simpl; auto.
  destruct (is_space x); simpl; auto.
  destruct (Ascii.eqb x c); simpl; auto. discriminate.
Qed.

Lemma count_rstrip (c : ascii) (s : string) :
  count c s = 0 -> count c (rstrip s) = 0.
Proof.
  induction s as [|x s IH]; simpl; auto. intros H.
  assert (Hx : Ascii.eqb x c = false)
    by (destruct (Ascii.eqb x c); [discriminate|reflexivity]).
  rewrite Hx in H. simpl in H. specialize (IH H).
  destruct (rstrip s) eqn:E.
  - destruct (is_space x); simpl; auto. now rewrite Hx.
  - simpl in *. now rewrite Hx.
Qed.

Lemma brace_not_space :
  is_space lbrace = false /\ is_space rbrace = false.
Proof. split; reflexivity. Qed.

(** Stripping a text leaves a balanced block inside it untouched. *)
Lemma strip_around_block (pre r post : string) :
  balanced_block r ->
  strip (pre ++ r ++ post) = lstrip pre ++ r ++ rstrip post.
Proof.
  intros Hb. apply balanced_block_inv in Hb. destruct Hb as [p [-> _]].
  unfold strip. rewrite lstrip_app by reflexivity.
  change (String lbrace (p ++ String rbrace ""))
    with (String lbrace p ++ String rbrace "").
  rewrite <- !app_assoc. rewrite rstrip_app by reflexivity. reflexivity.
Qed.

Lemma find_char_app (c : ascii) (pre s : string) :
  count c pre = 0 ->
  find_char c (pre ++ String c s) = Z.of_nat (length pre).
Proof.
  induction pre as [|x pre IH]; intros H;
    cbn [append find_char count length] in *.
  - now rewrite Ascii.eqb_refl.
  - destruct (Ascii.eqb x c); [discriminate|].
    rewrite IH by exact H.
    rewrite Nat2Z.inj_succ.
    destruct (Z.of_nat (length pre)) eqn:E; try reflexivity. lia.
Qed.

Lemma drop_app (pre s : string) : drop (length pre) (pre ++ s) = s.
Proof. induction pre; simpl; auto. Qed.

(** Dropping the prose in front of the first opening brace uncovers the
    block that starts there. *)
Lemma prose_dropped (s pre r post : string) :
  s = pre ++ r ++ post -> count lbrace pre = 0 -> balanced_block r ->
  (if (0 <? find_char lbrace s)%Z
   then drop (Z.to_nat (find_char lbrace s)) s else s) = r ++ post.
Proof.
  intros -> Hp Hb. apply balanced_block_inv in Hb.
  destruct Hb as [p [-> _]]. cbn [append].
  rewrite find_char_app by exact Hp.
  destruct (Z.ltb_spec 0 (Z.of_nat (length pre))) as [H|H].
  - rewrite Nat2Z.id. apply drop_app.
  - destruct pre; [reflexivity|simpl in H; lia].
Qed.

Lemma first_block_front (r post : string) :
  balanced_block r -> first_block (r ++ post) r.
Proof. intros H. exists "", post. simpl. auto. Qed.

(** Once the fences are gone, what is left decides: a balanced block
    behind prose without opening brace is what extraction returns. *)
Lemma extract_after_fences (text pre r post : string) :
  fence_sub 0 true (strip text) = pre ++ r ++ post ->
  count lbrace pre = 0 -> balanced_block r ->
  _extract_first_json_object text = Some r.
Proof.
  intros Hf Hp Hb. apply extract_iff. unfold _strip_fences_and_prose.
  rewrite Hf. rewrite strip_around_block by exact Hb.
  rewrite (prose_dropped _ (lstrip pre) r (rstrip post) eq_refl); auto.
  - now apply first_block_front.
  - now apply count_lstrip.
Qed.

Lemma extracted_balanced (text r : string) :
  _extract_first_json_object text = Some r -> balanced_block r.
Proof.
  intros H. apply extract_iff in H. now destruct H as [pre [post [_ [_ H]]]].
Qed.

(** In a text without backtick no fence is removed: the first balanced
    block of the stripped text is returned. *)
Lemma extract_no_fence (text pre r post : string) :
  count backtick text = 0 ->
  strip text = pre ++ r ++ post ->
  count lbrace pre = 0 -> balanced_block r ->
  _extract_first_json_object text = Some r.
Proof.
  intros Hbt Hs Hp Hb.
  apply (extract_after_fences text pre r post); auto.
  rewrite <- Hs. apply fence_sub_plain.
  unfold strip. now apply count_rstrip, count_lstrip.
Qed.

Lemma strip_block (r : string) : balanced_block r -> strip r = r.
Proof.
  intros Hb. pose proof (strip_around_block "" r "" Hb) as H.
  simpl in H. now rewrite !app_nil_r in H.
Qed.

Lemma fence_sub_app_plain (q rest : string) :
  forall bol, count backtick q = 0 ->
  fence_sub 0 bol (q ++ rest) = q ++ fence_sub 0 (bol_after bol q) rest.
Proof.
  induction q as [|c q IH]; intros bol H; cbn [append bol_after]; auto.
  cbn [count] in H.
  destruct (Ascii.eqb c backtick) eqn:E; [discriminate|].
  cbn [fence_sub]. rewrite (fence_match_plain bol c _ E).
  now rewrite IH.
Qed.

Lemma bol_after_nl (p : string) :
  forall bol, bol_after bol (p ++ line_feed) = true.
Proof. induction p; intros bol; simpl; auto. Qed.

Lemma lstrip_snoc_nl (p : string) :
  lstrip (p ++ line_feed) = "" \/
  exists q, lstrip (p ++ line_feed) = q ++ line_feed.
Proof.
  induction p as [|c p IH]; simpl; auto.
  destruct (is_space c); auto. right. now exists (String c p).
Qed.

Lemma fence_sub_skip (x rest : string) :
  forall bol, x <> "" ->
  fence_sub (length x) bol (x ++ rest)
  = fence_sub 0 (bol_after bol x) rest.
Proof.
  induction x as [|c x IH]; intros bol H; [congruence|].
  cbn [length append fence_sub bol_after].
  destruct x as [|d x]; [reflexivity|].
  apply IH. discriminate.
Qed.

Lemma lower_json (tag : string) :
  lower tag = "json" ->
  exists a b c d,
    tag = String a (String b (String c (String d ""))) /\
    Ascii.eqb d newline = false.
Proof.
  intros H.
  destruct tag as [|a [|b [|c [|d [|e t]]]]]; try discriminate.
  exists a, b, c, d. split; auto.
  destruct (Ascii.eqb_spec d newline) as [->|]; [discriminate|reflexivity].
Qed.

(** The closing fence at the end of the text goes, the line feeds stay. *)
Lemma fence_sub_closing (r : string) :
  count backtick r = 0 ->
  fence_sub 0 false (line_feed ++ r ++ line_feed ++ "```")
  = line_feed ++ r ++ line_feed.
Proof.
  intros H. unfold line_feed at 1 3. cbn [append fence_sub].
  rewrite fence_match_plain by reflexivity.
  rewrite fence_sub_app_plain by exact H.
  unfold line_feed. cbn [append fence_sub].
  rewrite fence_match_plain by reflexivity.
  reflexivity.
Qed.

Lemma fence_sub_at_bol (rest : string) :
  fence_sub 0 true ("```" ++ rest)
  = fence_sub (if ci_prefix "json" rest then 6 else 2) false ("``" ++ rest).
Proof.
  change ("```" ++ rest) with (String backtick ("``" ++ rest)).
  cbn [fence_sub]. unfold fence_match.
  replace (prefix "```" (String backtick ("``" ++ rest))) with true
    by (destruct rest; reflexivity).
  cbn [drop append].
  destruct (ci_prefix "json" rest); reflexivity.
Qed.

(** A fence at the start of a line goes together with its tag. *)
Lemma fence_sub_opening (tag r : string) :
  tag = "" \/ lower tag = "json" ->
  count backtick r = 0 ->
  fence_sub 0 true ("```" ++ tag ++ line_feed ++ r ++ line_feed ++ "```")
  = line_feed ++ r ++ line_feed.
Proof.
  intros [->|Ht] Hr; rewrite <- (fence_sub_closing r Hr), fence_sub_at_bol.
  - reflexivity.
  - destruct (lower_json tag Ht) as [a [b [c [d [-> Hd]]]]].
    set (rest := line_feed ++ r ++ line_feed ++ "```").
    assert (Hp : ci_prefix "json"
                   (String a (String b (String c (String d ""))) ++ rest)
                 = true).
    { unfold ci_prefix. cbn [length append substring lower] in *.
      injection Ht as -> -> -> ->. reflexivity. }
    rewrite Hp.
    change ("``" ++ String a (String b (String c (String d ""))) ++ rest)
      with (String backtick (String backtick
              (String a (String b (String c (String d ""))))) ++ rest).
    pose proof (fence_sub_skip
      (String backtick (String backtick
         (String a (String b (String c (String d ""))))))
      rest false ltac:(discriminate)) as Hk.
    cbn [length] in Hk. rewrite Hk.
    cbn [bol_after]. now rewrite Hd.
Qed.

(** X1. Prose around the object is ignored: in a text without backtick,
    a balanced block that follows prose without opening brace is returned
    as it stands, whatever comes after it. *)
Theorem extract_ignores_surrounding_text (prose r trailing : string) :
  count backtick (prose ++ r ++ trailing) = 0 ->
  count lbrace prose = 0 ->
  balanced_block r ->
  _extract_first_json_object (prose ++ r ++ trailing) = Some r.
Proof.
  intros Hbt Hp Hb.
  apply (extract_no_fence _ (lstrip prose) r (rstrip trailing)); auto.
  - now apply strip_around_block.
  - now apply count_lstrip.
Qed.

(** X2. A fenced block is recovered: when the text ends with a block
    between an opening fence at the start of a line - bare or tagged
    [json] in any case - and a closing fence, and what stands before the
    fence holds neither backtick nor opening brace, extraction returns the
    block, whatever prose leads to it. *)
Theorem extract_fenced_block (lead tag r : string) :
  lead = "" \/ (exists p, lead = p ++ line_feed) ->
  count backtick lead = 0 -> count lbrace lead = 0 ->
  tag = "" \/ lower tag = "json" ->
  count backtick r = 0 -> balanced_block r ->
  _extract_first_json_object
    (lead ++ "```" ++ tag ++ line_feed ++ r ++ line_feed ++ "```") = Some r.
Proof.
  intros Hl Hbt Hbr Ht Hr Hb.
  set (F := "```" ++ tag ++ line_feed ++ r ++ line_feed ++ "```").
  assert (Hs : strip (lead ++ F) = lstrip lead ++ F).
  { unfold strip. rewrite lstrip_app by reflexivity.
    replace F
      with (("```" ++ tag ++ line_feed ++ r ++ line_feed ++ "``") ++ "`")
      by (unfold F; rewrite !app_assoc; reflexivity).
    rewrite <- app_assoc. apply rstrip_snoc. reflexivity. }
  assert (Hq : bol_after true (lstrip lead) = true).
  { destruct Hl as [->|[p ->]]; [reflexivity|].
    destruct (lstrip_snoc_nl p) as [->|[q ->]]; [reflexivity|].
    apply bol_after_nl. }
  apply (extract_after_fences _ (lstrip lead ++ line_feed) r line_feed); auto.
  - rewrite Hs, fence_sub_app_plain by now apply count_lstrip.
    rewrite Hq. unfold F. rewrite fence_sub_opening by assumption.
    now rewrite app_assoc.
  - rewrite count_app, count_lstrip by exact Hbr. reflexivity.
Qed.

(** X3. Extraction is a projection on texts without backtick: what it
    returns is returned again unchanged when it is extracted once more. *)
Theorem extract_idempotent (text r : string) :
  _extract_first_json_object text = Some r ->
  count backtick r = 0 ->
  _extract_first_json_object r = Some r.
Proof.
  intros He Hbt. apply extracted_balanced in He.
  apply (extract_no_fence r "" r ""); auto.
  rewrite app_nil_r. now apply strip_block.
Qed.

Section WithRuntime.
Context {rt : Runtime}.

(** X4. The reading of a reply depends on its first block only: with no
    backtick in the reply, the decision read from prose, block and
    trailing text is the decision read from the block alone, which is the
    normalization of what [json.loads] makes of the block. *)
Theorem decide_reads_first_block (prose r trailing : string) :
  count backtick (prose ++ r ++ trailing) = 0 ->
  count lbrace prose = 0 ->
  balanced_block r ->
  decide (prose ++ r ++ trailing) = decide r /\
  decide r = match json_loads r with
             | Some x => _normalize_decision x
             | None => None
             end.
Proof.
  intros Hbt Hp Hb. rewrite !count_app in Hbt.
  assert (Hr : _extract_first_json_object r = Some r).
  { apply (extract_no_fence r "" r ""); auto; [lia|].
    rewrite app_nil_r. now apply strip_block. }
  assert (Hd : decide r = match json_loads r with
                          | Some x => _normalize_decision x
                          | None => None
                          end).
  { unfold decide, parse_llm_json. now rewrite strip_block, Hr. }
  split; [|exact Hd]. rewrite Hd. unfold decide, parse_llm_json.
  rewrite strip_around_block by exact Hb.
  rewrite (extract_no_fence _ (lstrip (lstrip prose)) r
             (rstrip (rstrip trailing))); auto.
  - rewrite !count_app, count_lstrip, count_rstrip by lia. lia.
  - now apply strip_around_block.
  - now apply count_lstrip, count_lstrip.
Qed.

End WithRuntime.

Lemma extract_ignores_surrounding_text_witness :
  balanced_block final_done /\
  _extract_first_json_object ("Here you go: " ++ final_done ++ " Thanks!")
  = Some final_done.
Proof.
  assert (Hb : balanced_block final_done)
    by (apply (extracted_balanced final_done); reflexivity).
  split; [exact Hb|].
  apply (extract_ignores_surrounding_text "Here you go: " final_done
           " Thanks!"); [reflexivity|reflexivity|exact Hb].
Defined.

Lemma extract_fenced_block_witness :
  lower "JSON" = "json" /\
  _extract_first_json_object
    (("Sure, the call:" ++ line_feed) ++ "```" ++ "JSON" ++ line_feed
       ++ call_say_hello ++ line_feed ++ "```")
  = Some call_say_hello.
Proof.
  split; [reflexivity|].
  apply (extract_fenced_block ("Sure, the call:" ++ line_feed) "JSON"
           call_say_hello).
  - right. now exists "Sure, the call:".
  - reflexivity.
  - reflexivity.
  - now right.
  - reflexivity.
  - apply (extracted_balanced call_say_hello). reflexivity.
Defined.

Lemma extract_idempotent_witness :
  _extract_first_json_object ("ok " ++ final_done ++ " bye") = Some final_done
  /\ _extract_first_json_object final_done = Some final_done.
Proof.
  split; [reflexivity|].
  apply (extract_idempotent ("ok " ++ final_done ++ " bye") final_done);
    reflexivity.
Defined.

Lemma decide_reads_first_block_witness :
  decide (rt := demo) ("Here you go: " ++ final_done ++ " Thanks!")
  = decide (rt := demo) final_done.
Proof.
  apply (decide_reads_first_block (rt := demo) "Here you go: " final_done
           " Thanks!"); [reflexivity|reflexivity|].
  apply (extracted_balanced final_done). reflexivity.
Defined.

End FenceFacts.

Module UpdateFacts.
Import PyDict.
Local Open Scope list_scope.
Section Dict.
Context {V : Type}.
Implicit Types (d e : @dict V) (k : string) (v : V).

Lemma dict_get_set k k' v d :
  dict_get k (dict_set k' v d)
  = if String.eqb k' k then Some v else dict_get k d.
Proof.
  induction d as [|[k1 v1] d IH]; simpl.
  - reflexivity.
  - destruct (String.eqb_spec k1 k') as [->|Hne]; simpl.
    + destruct (String.eqb k' k); reflexivity.
    + rewrite IH. destruct (String.eqb_spec k1 k) as [->|]; auto.
      destruct (String.eqb_spec k' k) as [->|]; congruence.
Qed.

Lemma dict_get_absent k d : ~ In k (keys d) -> dict_get k d = None.
Proof.
  induction d as [|[k1 v1] d IH]; simpl; auto. intros H.
  destruct (String.eqb_spec k1 k) as [->|]; [tauto|].
  apply IH. tauto.
Qed.

Lemma dict_get_update k d e :
  NoDup (keys e) ->
  dict_get k (dict_update d e)
  = match dict_get k e with
    | Some v => Some v
    | None => dict_get k d
    end.
Proof.
  unfold dict_update. revert d.
  induction e as [|[k1 v1] e IH]; intros d Hnd; simpl; auto.
  inversion Hnd as [|? ? Hn Hnd']; subst.
  rewrite IH by exact Hnd'. cbn [fst snd]. rewrite dict_get_set.
  destruct (String.eqb_spec k1 k) as [->|]; auto.
  now rewrite dict_get_absent.
Qed.

Lemma keys_dict_set k v d :
  keys (dict_set k v d) = if dict_mem k d then keys d else keys d ++ [k].
Proof.
  unfold dict_mem.
  induction d as [|[k1 v1] d IH]; simpl; auto.
  destruct (String.eqb_spec k1 k) as [->|Hne]; simpl; auto.
  rewrite IH. destruct (dict_get k d); reflexivity.
Qed.

Lemma dict_mem_in k d : dict_mem k d = true <-> In k (keys d).
Proof.
  unfold dict_mem. induction d as [|[k1 v1] d IH]; simpl.
  - split; [discriminate|tauto].
  - destruct (String.eqb_spec k1 k) as [->|Hne].
    + split; auto.
    + rewrite IH. split; auto. intros [H|H]; [congruence|auto].
Qed.

Lemma NoDup_dict_set k v d : NoDup (keys d) -> NoDup (keys (dict_set k v d)).
Proof.
  intros H. rewrite keys_dict_set. destruct (dict_mem k d) eqn:E; auto.
  apply NoDup_app; auto.
  - repeat constructor. simpl. tauto.
  - intros x Hx [<-|[]]. apply dict_mem_in in Hx. congruence.
Qed.

Lemma NoDup_dict_update d e : NoDup (keys d) -> NoDup (keys (dict_update d e)).
Proof.
  unfold dict_update. revert d.
  induction e as [|[k1 v1] e IH]; intros d H; simpl; auto.
  apply IH. now apply NoDup_dict_set.
Qed.

End Dict.
End UpdateFacts.

Module ShapeFacts.
Import PyStr PyDict PyNum NumRe Normalizer Demo.
Import StrFacts NumFacts DictFacts NormalizerFacts UpdateFacts.
Local Open Scope list_scope.
Section WithRuntime.
Context {rt : Runtime}.

Abbreviation val := (value pyfloat).
Abbreviation pydict := (@dict val).

Lemma coerced_idem (v : val) : coerced (coerced v) = coerced v.
Proof.
  destruct v; try reflexivity.
  assert (H : coerced (VStr s)
              = match convert s with Some n => n | None => VStr s end)
    by reflexivity.
  rewrite H. destruct (convert s) as [n|] eqn:E.
  - unfold convert in E.
    destruct (has_marker s);
      [destruct (py_float s)|destruct (py_int s)];
      simpl in E; try discriminate; injection E as <-; reflexivity.
  - unfold coerced. now rewrite E.
Qed.

Lemma coerce_entry_idem (kv : string * val) :
  coerce_entry (coerce_entry kv) = coerce_entry kv.
Proof. unfold coerce_entry. simpl. now rewrite coerced_idem. Qed.

Lemma coerce_items_idem (args : pydict) :
  NoDup (keys args) ->
  coerce_items (coerce_items args args) (coerce_items args args)
  = coerce_items args args.
Proof.
  intros H. rewrite (coerce_items_map args H).
  rewrite coerce_items_map
    by (unfold coerce_entry; now rewrite keys_map).
  rewrite map_map. apply map_ext. apply coerce_entry_idem.
Qed.

Lemma merge_items_snoc (items : list val) (v : val) :
  merge_items (items ++ [v])
  = match v with
    | VDict e => dict_update (merge_items items) e
    | _ => merge_items items
    end.
Proof. unfold merge_items. now rewrite fold_left_app. Qed.

Lemma NoDup_merge_items (items : list val) : NoDup (keys (merge_items items)).
Proof.
  induction items as [|v items IH] using rev_ind.
  - constructor.
  - rewrite merge_items_snoc. destruct v; auto.
    now apply NoDup_dict_update.
Qed.

(** X5. A [final] is accepted alone: normalization yields the final
    decision with a text exactly for the object whose only key is [final]
    and whose value is that string; an object that has both keys [final]
    and [tool] is rejected. *)
Theorem final_accepted_alone (x : val) :
  (forall text,
     _normalize_decision x = Some (Final text) <->
     x = VDict [("final"%string, VStr text)]) /\
  (forall items, x = VDict items ->
     dict_mem "final" items = true -> dict_mem "tool" items = true ->
     _normalize_decision x = None).
Proof.
  split; [intros text; split|].
  - destruct x as [| | | | |?|items]; try discriminate.
    unfold _normalize_decision.
    destruct (dict_mem "final" items) eqn:Ef.
    + destruct (dict_get "final" items) as [[]|] eqn:Eg; try discriminate.
      destruct items as [|[k v] [|? ?]]; try discriminate.
      simpl in Eg. intros H. injection H as ->.
      destruct (String.eqb_spec k "final") as [->|]; [|discriminate].
      now injection Eg as ->.
    + destruct (dict_mem "tool" items); [|discriminate].
      destruct (dict_get "tool" items) as [[]|]; try discriminate;
        destruct (match dict_get "args" items with
                  | Some a => a | None => VDict [] end);
        try discriminate;
        repeat match goal with
               | |- context [match ?a with _ => _ end] =>
                   destruct a; try discriminate
               end.
  - intros ->. reflexivity.
  - intros items -> Hf Ht. unfold _normalize_decision. rewrite Hf.
    destruct (dict_get "final" items) as [[]|]; try reflexivity.
    destruct items as [|[k v] [|? ?]]; try reflexivity.
    unfold dict_mem in Hf, Ht. simpl in Hf, Ht.
    destruct (String.eqb_spec k "final") as [->|]; [|discriminate].
    discriminate.
Qed.

(** X6. Normalization leaves no work to a second coercion: when the
    keys of the argument object are distinct, a normalized decision is a
    fixed point of [_coerce_numbers], and none of its arguments is a
    string that the conversion accepts. *)
Theorem normalized_args_fully_coerced (x : pydict) (d : decision) :
  (forall a, dict_get "args" x = Some (VDict a) -> NoDup (keys a)) ->
  _normalize_decision (VDict x) = Some d ->
  _coerce_numbers d = d /\
  match d with
  | ToolCall _ args =>
      forall k s, dict_get k args = Some (VStr s) -> convert s = None
  | Final _ => True
  end.
Proof.
  intros Hnd. unfold _normalize_decision.
  destruct (dict_mem "final" x).
  - destruct (dict_get "final" x) as [[]|]; try discriminate.
    destruct (negb _); [discriminate|]. intros H. injection H as <-.
    split; [reflexivity|exact I].
  - destruct (dict_mem "tool" x); [|discriminate].
    assert (Hshape : forall t a, NoDup (keys a) ->
              _coerce_numbers (_coerce_numbers (ToolCall t a))
              = _coerce_numbers (ToolCall t a) /\
              forall k s,
                dict_get k (coerce_items a a) = Some (VStr s) ->
                convert s = None).
    { intros t a Ha. split.
      - simpl. now rewrite coerce_items_idem.
      - intros k s. rewrite coerce_items_map by exact Ha.
        unfold coerce_entry. rewrite dict_get_map.
        destruct (dict_get k a) as [v|]; [|discriminate]. simpl.
        intros H. injection H as H. destruct v; try discriminate.
        unfold coerced in H. destruct (convert s0) as [n|] eqn:E.
        + subst n. unfold convert in E.
          destruct (has_marker s0);
            [destruct (py_float s0)|destruct (py_int s0)]; discriminate.
        + now injection H as <-. }
    destruct (dict_get "tool" x) as [[| | | |t| |]|]; try discriminate;
      destruct (dict_get "args" x) as [[| | | | |items|a]|] eqn:Ea;
      try discriminate.
    + intros H. injection H as <-.
      apply (Hshape t (merge_items items)), NoDup_merge_items.
    + intros H. injection H as <-. apply (Hshape t a), Hnd. reflexivity.
    + intros H. injection H as <-. apply (Hshape t []). constructor.
Qed.

(** X7. Arguments given as a list of objects are merged in order: a
    key of the last object takes the value that object gives it, the
    other keys keep what the objects before it gave; an item that is no
    object changes nothing; and the merged keys are distinct. *)
Theorem merged_arguments_last_wins (items : list val) (e : pydict) (v : val) :
  NoDup (keys e) ->
  (forall k,
     dict_get k (merge_items (items ++ [VDict e]))
     = match dict_get k e with
       | Some x => Some x
       | None => dict_get k (merge_items items)
       end) /\
  ((forall e', v <> VDict e') ->
   merge_items (items ++ [v]) = merge_items items) /\
  NoDup (keys (merge_items items)).
Proof.
  intros Hnd. split; [|split].
  - intros k. rewrite merge_items_snoc. now apply dict_get_update.
  - intros Hv. rewrite merge_items_snoc. destruct v; auto.
    now destruct (Hv items0).
  - apply NoDup_merge_items.
Qed.

End WithRuntime.

Lemma final_accepted_alone_witness :
  _normalize_decision (rt := demo)
    (VDict [("final", VStr "Done"); ("tool", VStr "say_hello")])
  = None.
Proof.
  apply (proj2 (final_accepted_alone (rt := demo)
                  (VDict [("final", VStr "Done"); ("tool", VStr "say_hello")]))
           [("final", VStr "Done"); ("tool", VStr "say_hello")]);
    reflexivity.
Defined.

Lemma normalized_args_fully_coerced_witness :
  _coerce_numbers (rt := demo)
    (ToolCall "add_numbers" [("a", VInt 12); ("b", VFloat "7.25")])
  = ToolCall "add_numbers" [("a", VInt 12); ("b", VFloat "7.25")].
Proof.
  refine (proj1 (normalized_args_fully_coerced (rt := demo)
                   [("tool", VStr "add_numbers");
                    ("args", VDict [("a", VStr " 12"); ("b", VStr "7.25")])]
                   _ _ _)).
  - intros a H. injection H as <-.
    repeat constructor; simpl; intuition discriminate.
  - reflexivity.
Defined.

Lemma merged_arguments_last_wins_witness :
  NoDup (keys [("a", @VInt string 3)]) /\
  dict_get "a" (merge_items (rt := demo)
                  ([VDict [("a", VInt 1); ("b", VInt 2)]]
                   ++ [VDict [("a", VInt 3)]]))
  = Some (VInt 3).
Proof.
  assert (Hnd : NoDup (keys [("a", @VInt string 3)]))
    by (repeat constructor; simpl; tauto).
  split; [exact Hnd|].
  apply (proj1 (merged_arguments_last_wins (rt := demo)
                  [VDict [("a", VInt 1); ("b", VInt 2)]]
                  [("a", VInt 3)] VNull Hnd) "a").
Defined.

End ShapeFacts.

Module ArgumentFacts.
Import PyStr PyDict PyNum NumRe Canonicalizer Demo.
Import NumFacts CanonicalizerFacts.
Local Open Scope list_scope.
Section WithRuntime.
Context {rt : Runtime}.

Abbreviation val := (value pyfloat).
Abbreviation pydict := (@dict val).

Lemma canonicalize_non_dict (tool : string) (args : val) (text : string) :
  (forall d, args <> VDict d) ->
  _canonicalize_args tool args text = _canonicalize_args tool (VDict []) text.
Proof. intros H. destruct args; try reflexivity. now destruct (H items). Qed.

(** The arguments [add_numbers] is given: [a] before [b], each present
    only with a value that is not [None]. *)
Lemma add_numbers_args_cases (args : val) (text : string) :
  exists a b : val,
    _canonicalize_args "add_numbers" args text
    = (if is_none a then [] else [("a", a)])
      ++ (if is_none b then [] else [("b", b)]).
Proof.
  assert (H : forall d, exists a b : val,
            _canonicalize_args "add_numbers" (VDict d) text
            = (if is_none a then [] else [("a", a)])
              ++ (if is_none b then [] else [("b", b)])).
  { intros d. rewrite canonicalize_add_numbers. cbv zeta. eauto. }
  destruct args; try apply H; apply (H []).
Qed.

Lemma lower_keys_fold (args : pydict) :
  lower_keys args
  = fold_left (fun acc kv => dict_set (fst kv) (snd kv) acc)
              (map (fun kv => (lower (fst kv), snd kv)) args) [].
Proof.
  unfold lower_keys. generalize (@nil (string * val)).
  induction args as [|kv args IH]; intros acc; simpl; auto.
Qed.


(** X9. The arguments [add_numbers] is given hold nothing but [a] and
    [b]: the result has no key, [a] alone, [b] alone, or [a] then [b];
    none of its values is [None]; and when both keys are present it is
    exactly the pair of them. *)
Theorem add_numbers_args_shape (args : val) (text : string) :
  let out := _canonicalize_args "add_numbers" args text in
  (out = [] \/ (exists x, out = [("a", x)]) \/ (exists y, out = [("b", y)])
   \/ exists x y, out = [("a", x); ("b", y)]) /\
  Forall (fun kv => snd kv <> VNull) out /\
  (dict_mem "a" out = true -> dict_mem "b" out = true ->
   exists x y, out = [("a", x); ("b", y)]).
Proof.
  cbv zeta. destruct (add_numbers_args_cases args text) as [a [b ->]].
  destruct (is_none a) eqn:Ea; destruct (is_none b) eqn:Eb; cbn [app].
  - split; [auto|]. split; [constructor|discriminate].
  - split; [right; right; left; eauto|].
    split; [|discriminate].
    repeat constructor. simpl. intros ->. discriminate.
  - split; [right; left; eauto|].
    split; [|discriminate].
    repeat constructor. simpl. intros ->. discriminate.
  - split; [right; right; right; eauto|].
    split; [|eauto].
    repeat constructor; simpl; intros ->; discriminate.
Qed.

(** X10. For [add_numbers] the case of the keys does not count:
    argument objects that agree once their keys are lowered are
    canonicalized alike. *)
Theorem canonicalize_keys_case_insensitive (args1 args2 : pydict)
        (text : string) :
  map (fun kv => (lower (fst kv), snd kv)) args1
  = map (fun kv => (lower (fst kv), snd kv)) args2 ->
  _canonicalize_args "add_numbers" (VDict args1) text
  = _canonicalize_args "add_numbers" (VDict args2) text.
Proof.
  intros H. rewrite !canonicalize_add_numbers.
  now rewrite (lower_keys_fold args1), (lower_keys_fold args2), H.
Qed.

End WithRuntime.


Lemma add_numbers_args_shape_witness :
  exists x y,
    _canonicalize_args (rt := demo) "add_numbers"
      (VDict [("Left", VInt 1)]) "add it to 2 or 3"
    = [("a", x); ("b", y)].
Proof.
  apply (proj2 (proj2 (add_numbers_args_shape (rt := demo)
                         (VDict [("Left", VInt 1)]) "add it to 2 or 3")));
    reflexivity.
Defined.

Lemma canonicalize_keys_case_insensitive_witness :
  _canonicalize_args (rt := demo) "add_numbers"
    (VDict [("A", VInt 1); ("Num2", VInt 2)]) "no numbers"
  = _canonicalize_args (rt := demo) "add_numbers"
      (VDict [("a", VInt 1); ("NUM2", VInt 2)]) "no numbers".
Proof.
  apply (canonicalize_keys_case_insensitive (rt := demo)
           [("A", VInt 1); ("Num2", VInt 2)]
           [("a", VInt 1); ("NUM2", VInt 2)] "no numbers").
  reflexivity.
Defined.

End ArgumentFacts.

Module GreetingFacts.
Import PyStr Agent StrFacts.

Lemma lower_app (a b : string) : lower (a ++ b) = lower a ++ lower b.
Proof. induction a; simpl; congruence. Qed.

Lemma lower_app_inv (x y u : string) :
  lower u = x ++ y ->
  exists u1 u2, u = u1 ++ u2 /\ lower u1 = x /\ lower u2 = y.
Proof.
  revert u. induction x as [|c x IH]; intros u H; simpl in H.
  - now exists "", u.
  - destruct u as [|d u]; [discriminate|]. simpl in H.
    injection H as Hc H. destruct (IH u H) as [u1 [u2 [-> [H1 H2]]]].
    exists (String d u1), u2. simpl. now rewrite Hc, H1.
Qed.

Lemma prefix_app (n b : string) : prefix n (n ++ b) = true.
Proof.
  induction n as [|c n IH]; simpl.
  - now destruct b.
  - destruct (ascii_dec c c); [exact IH|congruence].
Qed.

Lemma prefix_inv (n s : string) :
  prefix n s = true -> exists b, s = n ++ b.
Proof.
  revert s. induction n as [|c n IH]; intros s H.
  - now exists s.
  - destruct s as [|d s]; [discriminate|]. simpl in H.
    destruct (ascii_dec c d) as [->|]; [|discriminate].
    destruct (IH s H) as [b ->]. now exists b.
Qed.

Lemma contains_prefix (n s : string) :
  prefix n s = true -> contains n s = true.
Proof. intros H. destruct s; cbn [contains]; now rewrite H. Qed.

Lemma contains_app (n a b : string) : contains n (a ++ n ++ b) = true.
Proof.
  induction a as [|c a IH].
  - change ("" ++ n ++ b) with (n ++ b). apply contains_prefix, prefix_app.
  - cbn [append contains]. rewrite IH. apply orb_true_r.
Qed.

Lemma contains_inv (n s : string) :
  contains n s = true -> exists a b, s = a ++ n ++ b.
Proof.
  induction s as [|c s IH]; cbn [contains]; intros H.
  - rewrite orb_false_r in H. apply prefix_inv in H.
    destruct H as [b H]. now exists "", b.
  - apply orb_prop in H. destruct H as [H|H].
    + apply prefix_inv in H. destruct H as [b H]. now exists "", b.
    + destruct (IH H) as [a [b ->]]. now exists (String c a), b.
Qed.

(** X11. A greeting is due exactly when the user text holds, somewhere
    and in any case, the words [say hello] or the name [say_hello]. *)
Theorem greeting_due_iff (user_input : string) :
  must_greet_of user_input = true <->
  exists a w b,
    user_input = a ++ w ++ b /\
    (lower w = "say hello" \/ lower w = "say_hello").
Proof.
  unfold must_greet_of. split.
  - intros H. apply orb_prop in H.
    destruct H as [H|H]; apply contains_inv in H;
      destruct H as [x [y H]];
      apply lower_app_inv in H; destruct H as [a [r [-> [_ H]]]];
      apply lower_app_inv in H; destruct H as [w [b [-> [H _]]]];
      exists a, w, b; auto.
  - intros [a [w [b [-> H]]]]. rewrite !lower_app.
    destruct H as [-> | ->]; rewrite contains_app;
      [reflexivity|apply orb_true_r].
Qed.

Lemma greeting_due_iff_witness :
  must_greet_of "Add 1 and 2, then SAY Hello to me" = true.
Proof.
  apply (proj2 (greeting_due_iff "Add 1 and 2, then SAY Hello to me")).
  exists "Add 1 and 2, then ", "SAY Hello", " to me". split; [reflexivity|].
  now left.
Defined.

End GreetingFacts.

Module TraceFacts.
Import PyStr PyDict PyNum Normalizer Canonicalizer Agent Trace Demo.
Import CanonicalizerFacts AgentFacts ArgumentFacts.
Local Open Scope list_scope.

Section WithRuntime.
Context {rt : Runtime}.

Abbreviation val := (value pyfloat).
Abbreviation pydict := (@dict val).

Section Run.
Variables (chat tool : nat -> reply).
Variable user_input : string.
Variable allowed : list string.

Local Abbreviation body := (Agent.body chat tool user_input allowed).
Local Abbreviation orchestrate :=
  (Agent.orchestrate chat tool user_input allowed).
Local Abbreviation must_greet := (Agent.must_greet user_input).

(** Case analysis on the innermost scrutinee of a term. *)
Ltac innermost x :=
  lazymatch x with
  | context [match ?y with _ => _ end] => innermost y
  | _ => destruct x eqn:?
  end.

(** Unfolds one iteration into its paths. *)
Ltac paths :=
  unfold Agent.body, on_final, execute, fix_args, _repair_to_known_tool,
    ask, call_tool, note, say_hello_call;
  repeat (cbn beta iota zeta delta [fst snd log asked invoked];
          match goal with
          | |- context [match ?x with _ => _ end] => innermost x
          end);
  cbn beta iota zeta delta [fst snd log asked invoked].

(** What holds of the locals and the log at every iteration decides what
    holds of the outcome and the log at the end. *)
Lemma orchestrate_ends (I : locals -> io -> Prop)
      (Q : outcome -> io -> Prop) :
  (forall w, Q Unfinished w) ->
  (forall l w, I l w -> Q (Returned (compose_final l)) w) ->
  (forall l w, I l w ->
     match body l w with
     | Next l' w' => I l' w'
     | Done s w' => Q (Returned s) w'
     | Stop l' w' => Q (Returned (compose_final l')) w'
     | Throw w' => Q Raised w'
     end) ->
  forall fuel l w,
    I l w -> Q (fst (orchestrate fuel l w)) (snd (orchestrate fuel l w)).
Proof.
  intros Hu Hend Hstep. induction fuel as [|fuel IH]; intros l w HI; simpl.
  - destruct (steps l <? max_steps); simpl; eauto.
  - destruct (steps l <? max_steps); simpl; eauto.
    specialize (Hstep l w HI).
    destruct (body l w); simpl; eauto.
Qed.

Lemma incomplete_add_numbers (t : string) (a : pydict) :
  incomplete t a = true -> t = "add_numbers"%string.
Proof.
  unfold incomplete. intros H. apply andb_prop in H.
  now apply String.eqb_eq.
Qed.

Lemma complete_add_numbers (v : val) :
  incomplete "add_numbers" (_canonicalize_args "add_numbers" v user_input)
  = false ->
  well_formed
    (Invoked "add_numbers" (_canonicalize_args "add_numbers" v user_input)).
Proof.
  destruct (add_numbers_args_cases v user_input) as [a [b ->]].
  unfold incomplete. cbn [String.eqb Ascii.eqb Bool.eqb andb].
  destruct (is_none a) eqn:Ea; destruct (is_none b) eqn:Eb;
    try discriminate.
  intros _. split; [|discriminate]. intros _. exists a, b.
  split; [reflexivity|]. split; intros ->; discriminate.
Qed.

Lemma canonical_invocation (t : string) (v : val) :
  incomplete t (_canonicalize_args t v user_input) = false ->
  well_formed (Invoked t (_canonicalize_args t v user_input)).
Proof.
  intros H. split.
  - intros ->. now apply complete_add_numbers.
  - intros ->. reflexivity.
Qed.

Lemma fixed_invocation (t : string) (a0 : pydict) (v : val) :
  incomplete t a0 = true ->
  incomplete t (_canonicalize_args "add_numbers" v user_input) = false ->
  well_formed (Invoked t (_canonicalize_args "add_numbers" v user_input)).
Proof.
  intros H0 H. apply incomplete_add_numbers in H0. subst t.
  now apply canonical_invocation.
Qed.

Lemma body_well_formed (l : locals) (w : io) :
  Forall well_formed (log w) ->
  match body l w with
  | Next _ w' | Done _ w' | Stop _ w' | Throw w' => Forall well_formed (log w')
  end.
Proof.
  intros H. paths.
  all: repeat rewrite Forall_app; repeat split; auto;
    try (constructor; [exact I|constructor]).
  all: try congruence.
  all: constructor; [|constructor].
  all: first [ eapply canonical_invocation; eassumption
             | eapply fixed_invocation; eassumption ].
Qed.

Lemma body_unforced (l : locals) (w : io) :
  must_greet = false ->
  tally is_forcing (log w) = 0 ->
  match body l w with
  | Next _ w' | Done _ w' | Stop _ w' | Throw w' =>
      tally is_forcing (log w') = 0
  end.
Proof.
  intros Hm H. unfold Agent.must_greet in Hm.
  paths.
  all: unfold Agent.must_greet in *;
    repeat match goal with
           | H : must_greet_of user_input && _ = true |- _ =>
               rewrite Hm in H; discriminate
           end.
  all: rewrite ?tally_app, H; reflexivity.
Qed.

Lemma known_in_catalog (t : string) (a : pydict) :
  unknown_tool allowed (ToolCall t a) = false -> In t allowed.
Proof.
  simpl. intros H. apply negb_false_iff, existsb_exists in H.
  destruct H as [x [Hx E]]. apply String.eqb_eq in E. now subst x.
Qed.

Lemma body_from_catalog (l : locals) (w : io) :
  (~ In (Asked ToolRepair) (log w) -> Forall (from_catalog allowed) (log w)) ->
  match body l w with
  | Next _ w' | Done _ w' | Stop _ w' | Throw w' =>
      ~ In (Asked ToolRepair) (log w') -> Forall (from_catalog allowed) (log w')
  end.
Proof.
  intros H. paths.
  all: intros Hn; rewrite ?in_app_iff in Hn; cbn [In] in Hn.
  all: repeat match goal with
              | Hn : ~ (_ \/ _) |- _ =>
                  apply Decidable.not_or in Hn; destruct Hn
              end.
  all: try match goal with
           | Hn : Asked ToolRepair <> Asked ToolRepair |- _ => now destruct Hn
           end.
  all: assert (Hw : Forall (from_catalog allowed) (log w))
         by (apply H; assumption).
  all: repeat rewrite Forall_app; repeat split; auto;
    try (constructor; [exact I|constructor]).
  all: constructor; [|constructor].
  all: eapply known_in_catalog; eassumption.
Qed.

Lemma invocations_app (a b : list event) :
  invocations (a ++ b) = invocations a ++ invocations b.
Proof. apply flat_map_app. Qed.

(** What one iteration does to the locals, the invocations and the
    count of the calls of the Tool Gateway. *)
Lemma body_summary (l : locals) (w : io) :
  match body l w with
  | Next l' w' =>
      exists t a o d,
        invocations (log w') = invocations (log w) ++ [(t, a)] /\
        invoked w' = S (invoked w) /\ tool (invoked w) = Says o /\
        l' = next_round d (capture t o l)
  | Stop l' w' =>
      (l' = l /\ invocations (log w') = invocations (log w) /\
       invoked w' = invoked w) \/
      (exists t a o,
         invocations (log w') = invocations (log w) ++ [(t, a)] /\
         invoked w' = S (invoked w) /\ tool (invoked w) = Says o /\
         l' = capture t o l)
  | Done s w' =>
      invocations (log w') = invocations (log w) /\
      invoked w' = invoked w /\
      must_greet && is_unset (greet_msg l) = false /\
      exists text, s = compose_in_loop l text
  | Throw _ => True
  end.
Proof.
  paths; try exact I.
  all: rewrite ?invocations_app;
    cbn [invocations flat_map List.app]; rewrite ?List.app_nil_r.
  all: try congruence.
  all: try (repeat split; eauto; fail).
  all: try (left; repeat split; reflexivity).
  all: try (right; do 3 eexists; repeat split; try eassumption; reflexivity).
  all: try (do 4 eexists; repeat split; try eassumption; reflexivity).
Qed.

Lemma first_decision_start :
  invoked (snd (first_decision chat start)) = 0 /\
  (log (snd (first_decision chat start)) = [Asked Initial] \/
   log (snd (first_decision chat start)) = [Asked Initial; Asked ShapeRepair]).
Proof.
  unfold first_decision, ask, start. cbn [asked log invoked].
  destruct (chat 0) as [|c0]; [|destruct (decide c0)]; auto;
    destruct (chat 1); auto.
Qed.

(** A property of the log that holds after the first decision and that
    every iteration keeps holds of the log of the run. *)
Lemma run_log_invariant (P : list event -> Prop) :
  P [Asked Initial] -> P [Asked Initial; Asked ShapeRepair] ->
  (forall l w, P (log w) ->
     match body l w with
     | Next _ w' | Done _ w' | Stop _ w' | Throw w' => P (log w')
     end) ->
  P (snd (run chat tool user_input allowed)).
Proof.
  intros H1 H2 Hstep. unfold run.
  pose proof first_decision_start as [_ Hl].
  assert (Hw : P (log (snd (first_decision chat start))))
    by (destruct Hl as [-> | ->]; assumption).
  destruct (first_decision chat start) as [[d|] w]; cbn [snd] in *; auto.
  set (l := {| steps := 0; decision_obj := d; sum_value := None;
               greet_msg := None |}).
  pose proof (orchestrate_invariant chat tool user_input allowed
                (fun _ w => P (log w)) (fun w => P (log w))
                (fun _ _ H => H)) as Hinv.
  cbv beta in Hinv.
  assert (Hs : forall l w, P (log w) ->
            match body l w with
            | Next _ w' => P (log w')
            | Done _ w' => P (log w')
            | Stop _ w' => P (log w')
            | Throw w' => P (log w')
            end).
  { intros l0 w0 H0. specialize (Hstep l0 w0 H0).
    destruct (body l0 w0); exact Hstep. }
  specialize (Hinv Hs max_steps l w Hw).
  destruct (Agent.orchestrate chat tool user_input allowed max_steps l w).
  exact Hinv.
Qed.

Lemma capture_sum (t o : string) (l : locals) :
  sum_value (capture t o l) = None ->
  sum_value l = None /\ (t = "add_numbers"%string -> py_float o = None).
Proof.
  unfold capture. destruct (String.eqb_spec t "add_numbers") as [->|Hne].
  - destruct (py_float o); simpl; [discriminate|auto].
  - destruct (String.eqb t "say_hello"); simpl; intros H; split; auto;
      congruence.
Qed.

Lemma capture_greeting (t o : string) (l : locals) :
  greet_msg (capture t o l) <> None ->
  greet_msg l <> None \/ t = "say_hello"%string.
Proof.
  unfold capture. destruct (String.eqb t "add_numbers").
  - destruct (py_float o); simpl; auto.
  - destruct (String.eqb_spec t "say_hello"); simpl; auto.
Qed.

Lemma compose_final_sum (l : locals) (x : pyfloat) :
  sum_value l = Some x ->
  compose_final l = sum_only x \/
  exists g, compose_final l = sum_and_greeting x g.
Proof.
  intros H. unfold compose_final. rewrite H.
  destruct (greet_msg l) as [[|c g]|]; eauto.
Qed.

Lemma compose_in_loop_sum (l : locals) (x : pyfloat) (text : string) :
  sum_value l = Some x ->
  compose_in_loop l text = sum_only x \/
  exists g, compose_in_loop l text = sum_and_greeting x g.
Proof.
  intros H. unfold compose_in_loop. rewrite H.
  destruct (greet_msg l) as [[|c g]|]; eauto.
Qed.

Lemma compose_final_no_greeting (l : locals) :
  greet_msg l = None ->
  compose_final l = apology \/ exists x, compose_final l = sum_only x.
Proof.
  intros H. unfold compose_final. rewrite H.
  destruct (sum_value l); eauto.
Qed.

Local Abbreviation no_sum_yet := (Trace.no_sum_yet tool).
Local Abbreviation sum_pending := (Trace.sum_pending tool).

Lemma sum_pending_invocation (l : locals) (w w' : io) (t o : string)
      (a : pydict) :
  sum_pending l w ->
  invocations (log w') = invocations (log w) ++ [(t, a)] ->
  invoked w' = S (invoked w) -> tool (invoked w) = Says o ->
  forall l', sum_value l' = sum_value (capture t o l) -> sum_pending l' w'.
Proof.
  unfold Trace.sum_pending, Trace.no_sum_yet.
  intros [Hn Hs] Hi Hw Ht l' Hl. split.
  - rewrite Hi, length_app, Hw, Hn. simpl. lia.
  - rewrite Hl. intros Hc. apply capture_sum in Hc. destruct Hc as [Hc Hf].
    specialize (Hs Hc). intros k args o' x Hk Hto Hx. rewrite Hi in Hk.
    destruct (Nat.lt_ge_cases k (List.length (invocations (log w))))
      as [Hlt|Hge].
    + rewrite nth_error_app1 in Hk by exact Hlt. eapply Hs; eauto.
    + rewrite nth_error_app2 in Hk by exact Hge.
      destruct (k - List.length (invocations (log w))) as [|m] eqn:E.
      * simpl in Hk. injection Hk as -> _.
        assert (k = invoked w) by lia. subst k.
        rewrite Ht in Hto. injection Hto as <-.
        rewrite (Hf eq_refl) in Hx. discriminate.
      * destruct m; discriminate.
Qed.

Lemma orchestrate_reports_sum (fuel : nat) (l : locals) (w : io) :
  sum_pending l w ->
  forall a, fst (orchestrate fuel l w) = Returned a ->
  ~ no_sum_yet (log (snd (orchestrate fuel l w))) ->
  exists x, a = sum_only x \/ exists g, a = sum_and_greeting x g.
Proof.
  unfold Trace.sum_pending, Trace.no_sum_yet.
  assert (Hend : forall l w, sum_pending l w ->
            forall a, Returned (compose_final l) = Returned a ->
            ~ no_sum_yet (log w) ->
            exists x, a = sum_only x \/ exists g, a = sum_and_greeting x g).
  { intros l0 w0 [_ Hs] a Ha Hno. injection Ha as <-.
    destruct (sum_value l0) as [x|] eqn:E.
    - exists x. now apply compose_final_sum.
    - now destruct (Hno (Hs eq_refl)). }
  apply (orchestrate_ends sum_pending
           (fun o w => forall a, o = Returned a -> ~ no_sum_yet (log w) ->
              exists x, a = sum_only x \/
                        exists g, a = sum_and_greeting x g)).
  - discriminate.
  - exact Hend.
  - intros l0 w0 HI. pose proof (body_summary l0 w0) as Hb.
    destruct (body l0 w0) as [l' w'|s w'|l' w'|w'].
    + destruct Hb as (t & a & o & d & Hi & Hw & Ht & ->).
      now apply (sum_pending_invocation l0 w0 w' t o a).
    + destruct Hb as (Hi & Hw & _ & text & ->).
      intros a Ha Hno. injection Ha as <-. destruct HI as [_ Hs].
      destruct (sum_value l0) as [x|] eqn:E.
      * exists x. now apply compose_in_loop_sum.
      * destruct Hno. unfold no_sum_yet. rewrite Hi. now apply Hs.
    + apply Hend.
      destruct Hb as [(-> & Hi & Hw)|(t & a & o & Hi & Hw & Ht & ->)].
      * destruct HI as [Hn Hs]. split; [now rewrite Hi, Hw|].
        intros Hc. unfold no_sum_yet. rewrite Hi. now apply Hs.
      * now apply (sum_pending_invocation l0 w0 w' t o a).
    + discriminate.
Qed.

Lemma in_invocations (n : string) (a : pydict) (lg : list event) :
  In (n, a) (invocations lg) <-> In (Invoked n a) lg.
Proof.
  unfold invocations. rewrite in_flat_map. split.
  - intros [e [He Hin]]. destruct e; simpl in Hin; try tauto.
    destruct Hin as [Hin|[]]. now injection Hin as -> ->.
  - intros H. exists (Invoked n a). split; [exact H|now left].
Qed.

Lemma greeting_earned_invocation (l : locals) (w w' : io) (t o : string)
      (a : pydict) :
  greeting_earned l w ->
  invocations (log w') = invocations (log w) ++ [(t, a)] ->
  forall l', greet_msg l' = greet_msg (capture t o l) ->
             greeting_earned l' w'.
Proof.
  unfold greeting_earned. intros H Hi l' Hl Hg. rewrite Hl in Hg.
  apply capture_greeting in Hg. destruct Hg as [Hg| ->].
  - destruct (H Hg) as [args Hin]. exists args.
    apply in_invocations. rewrite Hi. apply in_or_app. left.
    now apply in_invocations.
  - exists a. apply in_invocations. rewrite Hi. apply in_or_app.
    right. now left.
Qed.

Lemma orchestrate_greeting_first (fuel : nat) (l : locals) (w : io) :
  must_greet = true -> greeting_earned l w ->
  forall a, fst (orchestrate fuel l w) = Returned a ->
  (forall args, ~ In (Invoked "say_hello"%string args)
                     (log (snd (orchestrate fuel l w)))) ->
  a = apology \/ exists x, a = sum_only x.
Proof.
  intros Hm.
  assert (Hend : forall l w, greeting_earned l w ->
            forall a, Returned (compose_final l) = Returned a ->
            (forall args, ~ In (Invoked "say_hello"%string args) (log w)) ->
            a = apology \/ exists x, a = sum_only x).
  { intros l0 w0 H a Ha Hno. injection Ha as <-.
    apply compose_final_no_greeting.
    destruct (greet_msg l0) eqn:E; auto.
    destruct H as [args Hin]; [congruence|]. now destruct (Hno args). }
  assert (Hsame : forall l (w w' : io), greeting_earned l w ->
            invocations (log w') = invocations (log w) ->
            greeting_earned l w').
  { intros l0 w0 w' H Hi Hg. destruct (H Hg) as [args Hin].
    exists args. apply in_invocations. rewrite Hi.
    now apply in_invocations. }
  apply (orchestrate_ends greeting_earned
           (fun o w => forall a, o = Returned a ->
              (forall args, ~ In (Invoked "say_hello"%string args) (log w)) ->
              a = apology \/ exists x, a = sum_only x)).
  - discriminate.
  - exact Hend.
  - intros l0 w0 HI. pose proof (body_summary l0 w0) as Hb.
    destruct (body l0 w0) as [l' w'|s w'|l' w'|w'].
    + destruct Hb as (t & a & o & d & Hi & Hw & Ht & ->).
      now apply (greeting_earned_invocation l0 w0 w' t o a).
    + destruct Hb as (Hi & Hw & Hg & text & ->).
      intros a Ha Hno. exfalso. rewrite Hm in Hg. simpl in Hg.
      destruct (greet_msg l0) eqn:E; [|discriminate].
      destruct (Hsame l0 w0 w' HI Hi) as [args Hin]; [congruence|].
      now destruct (Hno args).
    + apply Hend.
      destruct Hb as [(-> & Hi & Hw)|(t & a & o & Hi & Hw & Ht & ->)].
      * now apply (Hsame l0 w0 w').
      * now apply (greeting_earned_invocation l0 w0 w' t o a).
    + discriminate.
Qed.

(** With two literals in the user text, the arguments of [add_numbers]
    are complete as soon as they are canonicalized. *)
Lemma backfill_completes (t : string) (args : pydict) :
  2 <= List.length (NumRe.findall NumRe._NUM_RE user_input) ->
  incomplete t (_canonicalize_args t (VDict args) user_input) = false.
Proof.
  intros H. unfold incomplete.
  destruct (String.eqb_spec t "add_numbers") as [->|]; [|reflexivity].
  rewrite canonicalize_add_numbers. cbv zeta.
  pose proof (extract_two_numbers_cases user_input) as Hx.
  destruct (NumRe.findall NumRe._NUM_RE user_input) as [|n0 [|n1 more]];
    try (simpl in H; lia).
  rewrite Hx. cbn [fst snd].
  destruct (is_none (pick a_keys (lower_keys args))) eqn:Ea;
    destruct (is_none (pick b_keys (lower_keys args))) eqn:Eb;
    cbn [is_none]; rewrite ?Ea, ?Eb; reflexivity.
Qed.

Lemma body_no_arg_fix (l : locals) (w : io) :
  2 <= List.length (NumRe.findall NumRe._NUM_RE user_input) ->
  ~ In (Asked ArgFix) (log w) ->
  match body l w with
  | Next _ w' | Done _ w' | Stop _ w' | Throw w' =>
      ~ In (Asked ArgFix) (log w')
  end.
Proof.
  intros Hn H. paths.
  all: try match goal with
           | Hi : incomplete ?t (_canonicalize_args ?t _ _) = true |- _ =>
               rewrite (backfill_completes t _ Hn) in Hi; discriminate
           end.
  all: intros Hin; rewrite ?in_app_iff in Hin; cbn [In] in Hin.
  all: repeat match goal with
              | Hi : _ \/ _ |- _ => destruct Hi
              end;
    try discriminate; auto.
Qed.

End Run.

(** X12. What reaches the Tool Gateway is canonical: in every run,
    under every behaviour of the two gateways, [add_numbers] is invoked
    with exactly [a] and [b], neither of them [None], and [say_hello]
    without argument. *)
Theorem invocations_are_canonical
        (user_input : string) (listed : option (list string))
        (chat tool : nat -> reply) :
  Forall well_formed (snd (agent_run user_input listed chat tool)).
Proof.
  destruct listed as [allowed|]; [|constructor].
  apply (run_log_invariant chat tool user_input allowed
           (Forall well_formed)).
  - repeat constructor.
  - repeat constructor.
  - intros l w H.
    pose proof (body_well_formed chat tool user_input allowed l w H) as Hb.
    destruct (body chat tool user_input allowed l w); exact Hb.
Qed.

(** X13. No greeting is forced on a user who asked for none: when
    the user text does not call for a greeting, the run neither replaces
    a [final] by the greeting call nor schedules the greeting call. *)
Theorem no_forcing_unless_greeting_due
        (user_input : string) (listed : option (list string))
        (chat tool : nat -> reply) :
  must_greet_of user_input = false ->
  tally is_forcing (snd (agent_run user_input listed chat tool)) = 0.
Proof.
  intros Hm. destruct listed as [allowed|]; [|reflexivity].
  apply (run_log_invariant chat tool user_input allowed
           (fun lg => tally is_forcing lg = 0)).
  - reflexivity.
  - reflexivity.
  - intros l w H.
    pose proof (body_unforced chat tool user_input allowed l w Hm H) as Hb.
    destruct (body chat tool user_input allowed l w); exact Hb.
Qed.

(** X14. Without a repair of the tool name the catalog is respected: a
    run that made no repair request invoked only tools of the catalog. *)
Theorem unrepaired_run_stays_in_catalog
        (user_input : string) (allowed : list string)
        (chat tool : nat -> reply) :
  ~ In (Asked ToolRepair)
       (snd (agent_run user_input (Some allowed) chat tool)) ->
  Forall (from_catalog allowed)
         (snd (agent_run user_input (Some allowed) chat tool)).
Proof.
  apply (run_log_invariant chat tool user_input allowed
           (fun lg => ~ In (Asked ToolRepair) lg ->
                      Forall (from_catalog allowed) lg)).
  - intros _. repeat constructor.
  - intros _. repeat constructor.
  - intros l w H.
    pose proof (body_from_catalog chat tool user_input allowed l w H) as Hb.
    destruct (body chat tool user_input allowed l w); exact Hb.
Qed.

(** X15. With no greeting due, a [final] as first decision is returned
    verbatim, without any tool invocation and after one iteration: after
    one request when the first reply is that decision, after two when the
    first call raised or its reply was no decision. *)
Theorem first_final_is_echoed
        (user_input : string) (allowed : list string)
        (chat tool : nat -> reply) (c text : string) :
  must_greet_of user_input = false ->
  decide c = Some (Final text) ->
  (chat 0 = Says c ->
   agent_run user_input (Some allowed) chat tool
   = (Returned text, [Asked Initial; Round])) /\
  (chat 0 = Raises \/ (exists c0, chat 0 = Says c0 /\ decide c0 = None) ->
   chat 1 = Says c ->
   agent_run user_input (Some allowed) chat tool
   = (Returned text, [Asked Initial; Asked ShapeRepair; Round])).
Proof.
  intros Hm Hd.
  assert (Hb : forall w,
            orchestrate chat tool user_input allowed max_steps
              {| steps := 0; decision_obj := Final text;
                 sum_value := None; greet_msg := None |} w
            = (Returned text, note Round w)).
  { intros w.
    change (orchestrate chat tool user_input allowed max_steps)
      with (orchestrate chat tool user_input allowed 5).
    rewrite orchestrate_step by (unfold max_steps; cbn; lia).
    rewrite (body_honours_final chat tool user_input allowed _ _ text);
      [reflexivity| |reflexivity].
    unfold must_greet. now rewrite Hm. }
  split.
  - intros Hc. unfold agent_run, run, first_decision, ask, start.
    cbn [asked log invoked]. rewrite Hc, Hd, Hb. reflexivity.
  - intros H0 Hc. unfold agent_run, run, first_decision, ask, start.
    cbn [asked log invoked].
    destruct H0 as [->|[c0 [-> ->]]]; rewrite Hc, Hd, Hb; reflexivity.
Qed.

(** X16. The sum and the greeting are composed by the loop, not by the
    model: with a greeting due and both tools in the catalog, when the
    first decision calls [add_numbers] with complete arguments, its
    observation is a number, the greeting tool answers a text that is not
    empty and the model then declares a [final], the run invokes
    [add_numbers], schedules and invokes [say_hello] without asking the
    model in between, and returns the sum and the greeting; the text of
    the [final] is not used. *)
Theorem sum_then_forced_greeting
        (user_input : string) (allowed : list string)
        (chat tool : nat -> reply)
        (c1 c2 o1 g text : string) (args : pydict) (x y : val)
        (s : pyfloat) :
  must_greet_of user_input = true ->
  In "add_numbers"%string allowed -> In "say_hello"%string allowed ->
  chat 0 = Says c1 -> decide c1 = Some (ToolCall "add_numbers" args) ->
  _canonicalize_args "add_numbers" (VDict args) user_input
  = [("a"%string, x); ("b"%string, y)] ->
  tool 0 = Says o1 -> py_float o1 = Some s ->
  tool 1 = Says g -> g <> ""%string ->
  chat 1 = Says c2 -> decide c2 = Some (Final text) ->
  agent_run user_input (Some allowed) chat tool
  = (Returned (sum_and_greeting s g),
     [Asked Initial; Round;
      Invoked "add_numbers" [("a"%string, x); ("b"%string, y)];
      Scheduled; Round; Invoked "say_hello" []; Asked NextTurn; Round]).
Proof.
  intros Hm Hadd Hhello Hc1 Hd1 Hargs Ht0 Hf Ht1 Hg Hc2 Hd2.
  change (must_greet user_input = true) in Hm.
  assert (Hk : unknown_tool allowed (ToolCall "add_numbers" args) = false).
  { simpl. apply negb_false_iff, existsb_exists.
    exists "add_numbers"%string. split; auto. }
  pose proof (known_say_hello allowed Hhello) as Hs.
  unfold agent_run, run, first_decision, ask, start.
  cbn [asked log invoked]. rewrite Hc1, Hd1.
  change (orchestrate chat tool user_input allowed max_steps)
    with (orchestrate chat tool user_input allowed 5).
  rewrite orchestrate_step by (unfold max_steps; cbn; lia).
  unfold body at 1, on_final. cbn [decision_obj]. rewrite Hk.
  unfold execute. rewrite Hargs.
  unfold fix_args, incomplete, call_tool, note.
  cbn [dict_mem dict_get String.eqb Ascii.eqb Bool.eqb andb orb negb
       fst snd log asked invoked].
  rewrite Ht0. unfold capture.
  cbn [String.eqb Ascii.eqb Bool.eqb]. rewrite Hf.
  cbn [greet_msg]. rewrite Hm. cbn [andb is_unset].
  rewrite orchestrate_step by (unfold max_steps; cbn; lia).
  unfold body at 1, on_final, next_round. cbn [decision_obj].
  unfold say_hello_call in *. rewrite Hs.
  unfold execute. rewrite canonicalize_say_hello.
  unfold fix_args, incomplete, call_tool, ask, note.
  cbn [String.eqb Ascii.eqb Bool.eqb andb fst snd log asked invoked].
  rewrite Ht1. unfold capture.
  cbn [String.eqb Ascii.eqb Bool.eqb greet_msg]. rewrite Hm.
  cbn [andb is_unset]. rewrite Hc2, Hd2.
  rewrite orchestrate_step by (unfold max_steps; cbn; lia).
  rewrite (body_honours_final chat tool user_input allowed _ _ text);
    [|rewrite Hm; reflexivity|reflexivity].
  unfold compose_in_loop, next_round. cbn [sum_value greet_msg].
  destruct g as [|ch g]; [congruence|].
  reflexivity.
Qed.

(** X17. A sum once obtained is always reported: when some invocation
    of [add_numbers] was answered with a text that [float] accepts, an
    answer the run returns is the sum alone or the sum and the greeting,
    whatever the model declared as its [final]. *)
Theorem accepted_sum_is_reported
        (user_input : string) (listed : option (list string))
        (chat tool : nat -> reply)
        (answer : string) (k : nat) (args : pydict) (o : string)
        (x : pyfloat) :
  fst (agent_run user_input listed chat tool) = Returned answer ->
  nth_error (invocations (snd (agent_run user_input listed chat tool))) k
  = Some ("add_numbers"%string, args) ->
  tool k = Says o -> py_float o = Some x ->
  exists y, answer = sum_only y \/ exists g, answer = sum_and_greeting y g.
Proof.
  destruct listed as [allowed|]; [|discriminate].
  unfold agent_run, run.
  pose proof (first_decision_start chat) as [Hi Hl].
  destruct (first_decision chat start) as [[d|] w]; [|discriminate].
  cbn [snd] in Hi, Hl.
  set (l := {| steps := 0; decision_obj := d; sum_value := None;
               greet_msg := None |}).
  assert (HI : sum_pending tool l w).
  { split.
    - rewrite Hi. destruct Hl as [-> | ->]; reflexivity.
    - intros _ k' a' o' x' Hk.
      destruct Hl as [E|E]; rewrite E in Hk; destruct k'; discriminate. }
  pose proof (orchestrate_reports_sum chat tool user_input allowed
                max_steps l w HI) as H.
  destruct (orchestrate chat tool user_input allowed max_steps l w)
    as [out w'].
  cbn [fst snd] in *. intros Ha Hk Ht Hx. apply (H answer Ha).
  intros Hno. exact (Hno k args o x Hk Ht Hx).
Qed.

(** X18. While a greeting is due the model's [final] is never the
    answer before the greeting tool was invoked: a run that returns
    without any invocation of [say_hello] returns the apology or the sum
    alone. *)
Theorem no_final_before_greeting
        (user_input : string) (listed : option (list string))
        (chat tool : nat -> reply) (answer : string) :
  must_greet_of user_input = true ->
  fst (agent_run user_input listed chat tool) = Returned answer ->
  (forall args,
     ~ In (Invoked "say_hello"%string args)
          (snd (agent_run user_input listed chat tool))) ->
  answer = apology \/ exists x, answer = sum_only x.
Proof.
  intros Hm. destruct listed as [allowed|]; [|discriminate].
  unfold agent_run, run.
  destruct (first_decision chat start) as [[d|] w]; [|discriminate].
  set (l := {| steps := 0; decision_obj := d; sum_value := None;
               greet_msg := None |}).
  assert (HI : greeting_earned l w) by (intros H; now destruct H).
  pose proof (orchestrate_greeting_first chat tool user_input allowed
                max_steps l w Hm HI) as H.
  destruct (orchestrate chat tool user_input allowed max_steps l w)
    as [out w'].
  cbn [fst snd] in *. intros Ha Hno. now apply (H answer).
Qed.


(** X19. A user text with two numbers needs no repair of the
    arguments: when the text holds two numeric literals or more, the run
    never asks the model to extract the two numbers. *)
Theorem two_literals_spare_arg_fix
        (user_input : string) (listed : option (list string))
        (chat tool : nat -> reply) :
  2 <= List.length (NumRe.findall NumRe._NUM_RE user_input) ->
  ~ In (Asked ArgFix) (snd (agent_run user_input listed chat tool)).
Proof.
  intros Hn. destruct listed as [allowed|]; [|intros []].
  apply (run_log_invariant chat tool user_input allowed
           (fun lg => ~ In (Asked ArgFix) lg)).
  - simpl. intuition discriminate.
  - simpl. intuition discriminate.
  - intros l w H.
    pose proof (body_no_arg_fix chat tool user_input allowed l w Hn H) as Hb.
    destruct (body chat tool user_input allowed l w); exact Hb.
Qed.

End WithRuntime.

Lemma no_forcing_unless_greeting_due_witness :
  must_greet_of "add 12.5 and 7.25" = false /\
  tally is_forcing
    (snd (agent_run "add 12.5 and 7.25" (Some catalog)
            (script [Says call_add_bare; Says final_done])
            (script [Says "19.75"]))) = 0.
Proof.
  split; [reflexivity|].
  apply (no_forcing_unless_greeting_due (rt := demo) "add 12.5 and 7.25"
           (Some catalog));
    reflexivity.
Defined.

Lemma unrepaired_run_stays_in_catalog_witness :
  Forall (from_catalog catalog)
    (snd (agent_run "add 12.5 and 7.25" (Some catalog)
            (script [Says call_add_bare; Says final_done])
            (script [Says "19.75"]))).
Proof.
  apply (unrepaired_run_stays_in_catalog (rt := demo) "add 12.5 and 7.25"
           catalog).
  vm_compute. intuition discriminate.
Defined.

Lemma first_final_is_echoed_witness :
  agent_run "What time is it?" (Some catalog)
            (script [Says final_done]) (script [])
  = (Returned "Done", [Asked Initial; Round]).
Proof.
  apply (proj1 (first_final_is_echoed (rt := demo) "What time is it?" catalog
                  (script [Says final_done]) (script [])
                  final_done "Done" eq_refl eq_refl)).
  reflexivity.
Defined.

Lemma sum_then_forced_greeting_witness :
  agent_run "Please add 12.5 and 7.25, then say hello." (Some catalog)
            (script [Says call_add_bare; Says final_done])
            (script [Says "19.75"; Says "Hello from REST API!"])
  = (Returned "The sum is 19.75. Hello from REST API!",
     [Asked Initial; Round;
      Invoked "add_numbers" [("a", VFloat "12.5"); ("b", VFloat "7.25")];
      Scheduled; Round; Invoked "say_hello" []; Asked NextTurn; Round]).
Proof.
  apply (sum_then_forced_greeting (rt := demo)
           "Please add 12.5 and 7.25, then say hello." catalog
           (script [Says call_add_bare; Says final_done])
           (script [Says "19.75"; Says "Hello from REST API!"])
           call_add_bare final_done "19.75" "Hello from REST API!" "Done"
           [] (VFloat "12.5") (VFloat "7.25") "19.75");
    try reflexivity.
  - now left.
  - right. now left.
  - discriminate.
Defined.

Lemma accepted_sum_is_reported_witness :
  exists y,
    "The sum is 19.75"%string = sum_only (rt := demo) y \/
    exists g, "The sum is 19.75"%string = sum_and_greeting (rt := demo) y g.
Proof.
  apply (accepted_sum_is_reported (rt := demo) "add 12.5 and 7.25"
           (Some catalog)
           (script [Says call_add_bare; Says final_done])
           (script [Says "19.75"])
           "The sum is 19.75" 0
           [("a", VFloat "12.5"); ("b", VFloat "7.25")] "19.75" "19.75");
    reflexivity.
Defined.

Lemma no_final_before_greeting_witness :
  must_greet_of "say hello" = true /\
  ("I couldn't complete the requested steps."%string = apology \/
   exists x, "I couldn't complete the requested steps."%string
             = sum_only (rt := demo) x).
Proof.
  split; [reflexivity|].
  apply (no_final_before_greeting (rt := demo) "say hello"
           (Some ["add_numbers"%string])
           (script [Says final_done; Says "oops"]) (script [])).
  - reflexivity.
  - reflexivity.
  - intros args H. vm_compute in H. intuition discriminate.
Defined.

Lemma two_literals_spare_arg_fix_witness :
  ~ In (Asked ArgFix)
       (snd (agent_run "add 12.5 and 7.25" (Some catalog)
               (script [Says call_add_bare; Says final_done])
               (script [Says "19.75"]))).
Proof.
  apply (two_literals_spare_arg_fix (rt := demo) "add 12.5 and 7.25"
           (Some catalog)).
  vm_compute. lia.
Defined.

End TraceFacts.

Module FailureFacts.
Import PyStr PyDict PyNum Normalizer Canonicalizer Agent Trace Failure Demo.
Import AgentFacts TraceFacts.
Local Open Scope list_scope.

Section WithRuntime.
Context {rt : Runtime}.

Abbreviation val := (value pyfloat).
Abbreviation pydict := (@dict val).

Section Run.
Variables (chat tool : nat -> reply).
Variable user_input : string.
Variable allowed : list string.

Local Abbreviation body := (Agent.body chat tool user_input allowed).
Local Abbreviation orchestrate :=
  (Agent.orchestrate chat tool user_input allowed).
Local Abbreviation failed_call := (Failure.failed_call chat tool).
Local Abbreviation calm := (Failure.calm chat tool).

(** Case analysis on the innermost scrutinee of a term. *)
Ltac innermost x :=
  lazymatch x with
  | context [match ?y with _ => _ end] => innermost y
  | _ => destruct x eqn:?
  end.

(** Unfolds one iteration into its paths. *)
Ltac paths :=
  unfold Agent.body, on_final, execute, fix_args, _repair_to_known_tool,
    ask, call_tool, note, say_hello_call;
  repeat (cbn beta iota zeta delta [fst snd log asked invoked];
          match goal with
          | |- context [match ?x with _ => _ end] => innermost x
          end);
  cbn beta iota zeta delta [fst snd log asked invoked].

Lemma tally_snoc (p : event -> bool) (lg : list event) (e : event) :
  tally p (lg ++ [e]) = tally p lg + (if p e then 1 else 0).
Proof. rewrite tally_app. unfold tally. simpl. now destruct (p e). Qed.

Lemma body_failures (l : locals) (w : io) :
  counted w ->
  match body l w with
  | Next _ w' => (counted w' /\ asked w <= asked w') /\ calm (log w')
  | Done _ w' | Stop _ w' => calm (log w')
  | Throw w' =>
      exists before e,
        log w' = before ++ [e] /\ failed_call before e /\
        asked w <= tally is_asked before /\ e <> Asked ShapeRepair
  end.
Proof.
  intros [Ha Hi]. paths.
  all: try congruence.
  all: repeat match goal with
              | |- _ /\ _ => split
              end.
  all: try (unfold counted; cbn [asked invoked log];
            rewrite ?tally_snoc; cbn [is_asked is_invocation];
            rewrite <- ?Ha, <- ?Hi; lia).
  all: try (cbn [asked]; lia).
  all: try (intros before e H; apply app_inj_tail in H;
            destruct H as [<- <-]; cbn [Failure.failed_call];
            rewrite ?tally_snoc; cbn [is_asked is_invocation];
            rewrite <- ?Ha, <- ?Hi; intros Hf;
            first [ exact Hf
                  | match goal with
                    | Hs : chat ?M = Says _, Hf : chat ?N = Raises |- _ =>
                        replace N with M in Hf by lia; congruence
                    end ]).
  all: try (do 2 eexists; split; [reflexivity|];
            cbn [Failure.failed_call];
            rewrite ?tally_snoc; cbn [is_asked is_invocation];
            rewrite <- ?Ha, <- ?Hi;
            split; [|split; [lia|discriminate]];
            match goal with
            | H : chat ?M = Raises |- chat ?N = Raises =>
                replace N with M by lia; exact H
            | H : tool ?M = Raises |- tool ?N = Raises =>
                replace N with M by lia; exact H
            end).
Qed.

(** The three ways the first decision goes. *)
Lemma first_decision_cases :
  (exists d,
     first_decision chat start
     = (Some d, {| asked := 1; invoked := 0; log := [Asked Initial] |})) \/
  (undecided chat 0 /\
   exists c d,
     chat 1 = Says c /\ decide c = Some d /\
     first_decision chat start
     = (Some d, {| asked := 2; invoked := 0;
                   log := [Asked Initial; Asked ShapeRepair] |})) \/
  (undecided chat 0 /\ undecided chat 1 /\
   first_decision chat start
   = (None, {| asked := 2; invoked := 0;
               log := [Asked Initial; Asked ShapeRepair] |})).
Proof.
  unfold first_decision, ask, start, undecided.
  cbn [asked invoked log List.app].
  destruct (chat 0) as [|c0]; [|destruct (decide c0) as [d0|] eqn:E0];
    [..|left; eauto|];
    (destruct (chat 1) as [|c1];
     [right; right; eauto 8
     |destruct (decide c1) as [d1|] eqn:E1;
      [right; left; eauto 10|right; right; eauto 10]]).
Qed.

(** How the loop ends: calm, or with a failed call that is none of the
    first decision's. *)
Lemma orchestrate_failures (fuel : nat) (l : locals) (w : io) :
  counted w -> 1 <= asked w -> calm (log w) ->
  match fst (orchestrate fuel l w) with
  | Returned _ => calm (log (snd (orchestrate fuel l w)))
  | Raised =>
      exists before e,
        log (snd (orchestrate fuel l w)) = before ++ [e] /\
        failed_call before e /\
        1 <= tally is_asked before /\ e <> Asked ShapeRepair
  | Unfinished => True
  end.
Proof.
  intros Hc Hn Hl.
  apply (orchestrate_ends chat tool user_input allowed
           (fun _ w => (counted w /\ 1 <= asked w) /\ calm (log w))
           (fun o w => match o with
                       | Returned _ => calm (log w)
                       | Raised =>
                           exists before e,
                             log w = before ++ [e] /\
                             failed_call before e /\
                             1 <= tally is_asked before /\
                             e <> Asked ShapeRepair
                       | Unfinished => True
                       end)); auto.
  - now intros _ w0 [_ H].
  - intros l0 w0 [[H Hge] _]. pose proof (body_failures l0 w0 H) as Hb.
    destruct (body l0 w0) as [l' w'|s w'|l' w'|w']; try exact Hb.
    + destruct Hb as [[Hc' Hle] Hcalm]. repeat split; auto; try apply Hc'.
      lia.
    + destruct Hb as (before & e & El & Hf & Hle & Hne).
      exists before, e. repeat split; auto. lia.
Qed.

(** Every invocation so far was answered. *)
Lemma orchestrate_answered (fuel : nat) (l : locals) (w : io) :
  invoked w = List.length (invocations (log w)) ->
  (forall k, k < invoked w -> tool k <> Raises) ->
  forall a, fst (orchestrate fuel l w) = Returned a ->
  forall k, k < List.length (invocations (log (snd (orchestrate fuel l w)))) ->
            tool k <> Raises.
Proof.
  intros Hn Ha.
  assert (Hext : forall (w w' : io) t (a : pydict) o,
            invoked w = List.length (invocations (log w)) ->
            (forall k, k < invoked w -> tool k <> Raises) ->
            invocations (log w') = invocations (log w) ++ [(t, a)] ->
            invoked w' = S (invoked w) -> tool (invoked w) = Says o ->
            invoked w' = List.length (invocations (log w')) /\
            (forall k, k < invoked w' -> tool k <> Raises)).
  { intros w0 w' t a o H1 H2 Hi Hw Ht. split.
    - rewrite Hi, length_app, Hw, H1. simpl. lia.
    - intros k Hk. rewrite Hw in Hk.
      destruct (Nat.eq_dec k (invoked w0)) as [->|Hne].
      + rewrite Ht. discriminate.
      + apply H2. lia. }
  apply (orchestrate_ends chat tool user_input allowed
           (fun _ w => invoked w = List.length (invocations (log w)) /\
                       forall k, k < invoked w -> tool k <> Raises)
           (fun o w => forall a, o = Returned a ->
              forall k, k < List.length (invocations (log w)) ->
                        tool k <> Raises)); auto.
  - discriminate.
  - intros _ w0 [H1 H2] a _ k Hk. apply H2. now rewrite H1.
  - intros l0 w0 [H1 H2]. pose proof (body_summary chat tool user_input
                                         allowed l0 w0) as Hb.
    destruct (body l0 w0) as [l' w'|s w'|l' w'|w'].
    + destruct Hb as (t & a & o & d & Hi & Hw & Ht & _).
      now apply (Hext w0 w' t a o).
    + destruct Hb as (Hi & Hw & _). intros a _ k Hk.
      apply H2. now rewrite H1, <- Hi.
    + intros a _ k Hk.
      destruct Hb as [(_ & Hi & Hw)|(t & a' & o & Hi & Hw & Ht & _)].
      * apply H2. now rewrite H1, <- Hi.
      * destruct (Hext w0 w' t a' o H1 H2 Hi Hw Ht) as [E H].
        apply H. now rewrite E.
    + discriminate.
Qed.

End Run.


End WithRuntime.


End FailureFacts.

Module CatalogFacts.
Import PyStr Extractor Lines Catalog StrFacts.
Local Open Scope list_scope.

Lemma join_cons (sep s : string) (l : list string) :
  l <> [] -> join sep (s :: l) = (s ++ sep ++ join sep l)%string.
Proof. destruct l; [congruence|reflexivity]. Qed.

(** Every element of a joined list stands in the text after a separator,
    and is followed by a separator or by nothing. *)
Lemma join_in (sep h s : string) (l : list string) :
  In s l ->
  exists pre post,
    join sep (h :: l) = (pre ++ sep ++ s ++ post)%string /\
    (post = ""%string \/ exists q, post = (sep ++ q)%string).
Proof.
  revert h. induction l as [|x l IH]; intros h Hin; [destruct Hin|].
  rewrite join_cons by discriminate.
  destruct Hin as [->|Hin].
  - destruct l as [|y l].
    + exists h, ""%string. simpl join. rewrite app_nil_r. auto.
    + exists h, (sep ++ join sep (y :: l))%string.
      rewrite join_cons by discriminate. eauto.
  - destruct (IH x Hin) as [pre [post [E Hp]]]. rewrite E.
    exists (h ++ sep ++ pre)%string, post.
    now rewrite !app_assoc.
Qed.



End CatalogFacts.

Module CritiqueFacts.
Import PyStr PyDict Extractor Normalizer Catalog Critique Demo.
Import StrFacts ExtractorFacts ShapeFacts.
Local Open Scope list_scope.
Section WithRuntime.
Context {rt : Runtime}.

Lemma extracted_starts_with_brace (text r : string) :
  _extract_first_json_object text = Some r -> exists t, r = String lbrace t.
Proof.
  intros H. apply extract_iff in H. destruct H as [pre [post [_ [_ Hb]]]].
  apply balanced_block_inv in Hb. destruct Hb as [p [-> _]]. eauto.
Qed.

(** X21. The critique of a reply never raises, provided [json.loads]
    reads a text that starts with an opening brace as an object or
    raises: a reply that cannot be parsed gets the message of the
    failure; a parsed reply gets the note on [final] with [tool], the
    note on [args] given as a list, both, or else the general note, and
    never the note on a top-level array. *)
Theorem critique_never_raises (describe : string -> string) (text : string) :
  loads_objects ->
  exists msg,
    _violations describe text = Some msg /\
    (parse_llm_json text = None ->
       exists e, msg = (not_json ++ e)%string) /\
    (forall d, parse_llm_json text = Some (VDict d) ->
       let both := dict_mem "final" d && dict_mem "tool" d in
       let bad_args :=
         dict_mem "tool" d &&
         match dict_get "args" d with
         | Some (VList _) => true
         | _ => false
         end in
       msg = if both
             then (if bad_args then (note_both ++ " " ++ note_args)%string
                   else note_both)
             else (if bad_args then note_args else note_shape)).
Proof.
  intros Hl. unfold _violations, parse_llm_json.
  destruct (_extract_first_json_object text) as [r|] eqn:E.
  - destruct (extracted_starts_with_brace text r E) as [t ->].
    destruct (json_loads (String lbrace t)) as [v|] eqn:Ej.
    + destruct (Hl t v Ej) as [d ->]. cbn [is_list py_in args_is_list].
      destruct (dict_mem "final" d) eqn:Ef;
        destruct (dict_mem "tool" d) eqn:Et; cbn [andb];
        destruct (dict_get "args" d) as [[]|] eqn:Ea; cbn [is_list];
        (eexists; split; [reflexivity|]; split; [discriminate|]);
        intros d' Hd; injection Hd as <-; cbv zeta;
        rewrite ?Ef, ?Et, ?Ea; reflexivity.
    + eexists. split; [reflexivity|]. split; [eauto|discriminate].
  - eexists. split; [reflexivity|]. split; [eauto|discriminate].
Qed.

End WithRuntime.

Lemma demo_loads_objects : loads_objects (rt := demo).
Proof.
  intros t v H. cbn [json_loads demo] in H. unfold demo_loads in H.
  repeat match type of H with
         | (if ?c then _ else _) = _ => destruct c
         end;
    try discriminate; injection H as <-; eauto.
Qed.

Lemma critique_never_raises_witness :
  loads_objects (rt := demo) /\
  exists msg,
    _violations (rt := demo) (fun _ => "Expecting value"%string) "no json here"
    = Some msg.
Proof.
  split; [exact demo_loads_objects|].
  destruct (critique_never_raises (rt := demo)
              (fun _ => "Expecting value"%string) "no json here"
              demo_loads_objects) as [msg [H _]].
  now exists msg.
Defined.

End CritiqueFacts.

Module LiteralFacts.
Import PyStr PyNum NumRe Found StrFacts NumFacts.
Local Open Scope list_scope.

Lemma match_at_front (r : re) (s m : string) :
  match_at r s = Some m -> lang r m /\ exists rest, s = (m ++ rest)%string.
Proof.
  unfold match_at. intros H.
  destruct (matches r s (fun rest => Some rest)) as [rest|] eqn:E;
    [|discriminate].
  injection H as <-. apply matches_sound in E.
  destruct E as [w [rest' [-> [Hw Hk]]]]. injection Hk as ->.
  rewrite length_app.
  replace (String.length w + String.length rest - String.length rest)
    with (String.length w) by lia.
  rewrite substring_prefix. eauto.
Qed.

Lemma scattered_later (ms : list string) (c : ascii) (text : string) :
  scattered ms text -> scattered ms (String c text).
Proof.
  destruct ms as [|m ms]; simpl; auto.
  intros [gap [rest [-> H]]]. now exists (String c gap), rest.
Qed.

Lemma drop_front (m rest : string) :
  drop (String.length m) (m ++ rest) = rest.
Proof. induction m; simpl; auto. Qed.

(** The matches of a pattern that matches no empty text are found one
    after the other. *)
Lemma findall_from_scattered (r : re) (s : string) :
  (forall m, lang r m -> m <> ""%string) ->
  forall skip, skip <= String.length s ->
               scattered (findall_from r skip s) (drop skip s).
Proof.
  intros Hne. induction s as [|c s IH]; intros skip Hs.
  - destruct skip; [|simpl in Hs; lia]. simpl.
    destruct (match_at r "") as [m|] eqn:E; simpl; auto.
    apply match_at_front in E. destruct E as [Hm [rest E]].
    destruct m; [now destruct (Hne _ Hm)|discriminate].
  - destruct skip as [|k].
    + cbn [findall_from drop].
      destruct (match_at r (String c s)) as [m|] eqn:E.
      * apply match_at_front in E. destruct E as [Hm [rest E]].
        destruct m as [|x m]; [now destruct (Hne _ Hm)|].
        simpl in E. injection E as <- ->.
        cbn [scattered]. exists ""%string, rest. split; [reflexivity|].
        cbn [String.length].
        replace (S (String.length m) - 1) with (String.length m) by lia.
        rewrite <- (drop_front m rest) at 2. apply IH.
        rewrite length_app. lia.
      * apply scattered_later. apply (IH 0). lia.
    + cbn [findall_from drop]. apply IH. simpl in Hs. lia.
Qed.

Lemma num_re_not_empty (m : string) : lang _NUM_RE m -> m <> ""%string.
Proof.
  intros H Hm. apply num_re_float_text in H. subst m. discriminate.
Qed.


End LiteralFacts.
